(** * PDF-to-Anki: a shallow embedding of [script.py]

    The script mines question/answer pairs from the pages of a PDF with a
    text-generation model, keeps them in a JSON ledger ([qa_data.json]) and
    mirrors them into an Anki deck.  This development embeds the pure text
    functions (chunker, turn extraction, Q&A parser), the ledger and deck
    operations and the orchestrator [main], and settles the properties that
    the specification states about them.

    Modelling conventions.
    - A Python [str] is a [list ascii]; a character is a code point below
      256 (Latin-1).  On that range [str.isspace], the [\s] and [\d]
      classes of [re] and case folding are the tables given in [PyStr].
    - Python integers are [Z]; [len] is [Z.of_nat (length _)].
    - The ledger dictionary is a record; the keys keep their source names.
    - The JSON codec, the clock, the PDF reader and the language model are
      not part of the script: they are parameters of the embedding.  A
      ledger file is a text that the codec decodes to a ledger or rejects;
      the calls made to the collaborators are kept in a log.
    - What the script prints is not modelled, and file operations do not
      fail; the only exceptions are those of the model call and of the PDF
      reader. *)

From Stdlib Require Import ZArith Lia Bool List Ascii String DecimalString.
From stdpp Require Import base option list strings gmap.

Import ListNotations.
Local Open Scope list_scope.

(* ===================================================================== *)
(** * Python strings *)
(* ===================================================================== *)

Module PyStr.

Definition str : Type := list ascii.

(** A string literal of the script. *)
Definition lit (s : string) : str := list_ascii_of_string s.

Definition code (c : ascii) : nat := nat_of_ascii c.

Definition newline : ascii := ascii_of_nat 10.

(** [str.isspace] on one character (code points below 256). *)
Definition isspace (c : ascii) : bool :=
  let n := code c in
  ((9 <=? n) && (n <=? 13)) || ((28 <=? n) && (n <=? 32))
  || (n =? 133) || (n =? 160).

(** The decimal digits among the code points below 256. *)
Definition isdigit (c : ascii) : bool :=
  let n := code c in (48 <=? n) && (n <=? 57).

(** Simple lower-casing of one character (code points below 256). *)
Definition lower (c : ascii) : ascii :=
  let n := code c in
  if ((65 <=? n) && (n <=? 90))
     || ((192 <=? n) && (n <=? 222) && negb (n =? 215))
  then ascii_of_nat (n + 32) else c.

Definition eqc (a b : ascii) : bool := Ascii.eqb a b.

(** [s.lstrip()], [s.rstrip()] and [s.strip()]. *)
Fixpoint lstrip (s : str) : str :=
  match s with
  | c :: s' => if isspace c then lstrip s' else s
  | [] => []
  end.

Definition rstrip (s : str) : str := rev (lstrip (rev s)).

Definition strip (s : str) : str := rstrip (lstrip s).

(** [s.startswith(p)]. *)
Fixpoint startswith (p s : str) : bool :=
  match p, s with
  | [], _ => true
  | a :: p', c :: s' => eqc a c && startswith p' s'
  | _ :: _, [] => false
  end.

(** [s.split(sep)] for a non-empty separator: the separator is searched
    from the left, occurrences do not overlap.  [skip] counts the
    characters of a separator that was found and is still being passed;
    [acc] holds the current piece, reversed. *)
Fixpoint split_go (sep : str) (skip : nat) (acc : str) (s : str) : list str :=
  match s with
  | [] => [rev acc]
  | c :: s' =>
      match skip with
      | S n => split_go sep n acc s'
      | O =>
          if startswith sep s
          then rev acc :: split_go sep (length sep - 1) [] s'
          else split_go sep 0 (c :: acc) s'
      end
  end.

Definition split (sep : str) (s : str) : list str := split_go sep 0 [] s.

(** Truth value of a string: [bool(s)]. *)
Definition truthy (s : str) : bool :=
  match s with [] => false | _ :: _ => true end.

(** Truth value of an optional string: [None] and [""] are false. *)
Definition truthy_opt (o : option str) : bool :=
  match o with Some s => truthy s | None => false end.

Definition len (s : str) : Z := Z.of_nat (length s).

End PyStr.

Import PyStr.

(* ===================================================================== *)
(** * The fragment of Python's [re] used by the script *)
(* ===================================================================== *)

Module PyRe.

(** One-character items: [\s], [\d], [.] and a literal character. *)
Inductive cclass : Type :=
| CSpace
| CDigit
| CDot
| CChar (a : ascii).

(** Patterns.  Repetition is only ever applied to a one-character item in
    the script's patterns, so [Star] and [StarLazy] carry a [cclass]. *)
Inductive regex : Type :=
| Eps
| Atom (cl : cclass)
| Cat (r1 r2 : regex)
| Alt (r1 r2 : regex)
| Star (cl : cclass)            (* cl*   greedy *)
| StarLazy (cl : cclass)        (* cl*?  lazy   *)
| Opt (r : regex)               (* r?    greedy *)
| Group (n : nat) (r : regex)   (* capturing group number n *)
| Ahead (r : regex)             (* (?=r) *)
| Bos                           (* ^ without MULTILINE *)
| Eos.                          (* $ without MULTILINE *)

Record flags : Type := { IGNORECASE : bool; DOTALL : bool }.

(** The matcher's state: the position in the subject, what is left of the
    subject from there, and the groups closed so far. *)
Record mstate : Type :=
  { pos : nat; rest : str; groups : list (nat * str) }.

Definition accepts (fl : flags) (cl : cclass) (c : ascii) : bool :=
  match cl with
  | CSpace => isspace c
  | CDigit => isdigit c
  | CDot => DOTALL fl || negb (eqc c newline)
  | CChar a => if IGNORECASE fl then eqc (lower c) (lower a) else eqc c a
  end.

Section Matcher.
Variable fl : flags.

(** [cl*]: the longest run first, then shorter ones. *)
Fixpoint star_greedy (cl : cclass) (p : nat) (s : str)
         (k : nat -> str -> option mstate) : option mstate :=
  match s with
  | c :: s' =>
      if accepts fl cl c
      then match star_greedy cl (S p) s' k with
           | Some r => Some r
           | None => k p s
           end
      else k p s
  | [] => k p []
  end.

(** [cl*?]: the shortest run first, then longer ones. *)
Fixpoint star_lazy (cl : cclass) (p : nat) (s : str)
         (k : nat -> str -> option mstate) : option mstate :=
  match k p s with
  | Some r => Some r
  | None =>
      match s with
      | c :: s' => if accepts fl cl c then star_lazy cl (S p) s' k else None
      | [] => None
      end
  end.

(** Backtracking matcher in continuation-passing style: [run r st k]
    matches [r] at [st] and hands every way of doing so to [k], in the
    order of Python's engine, until [k] succeeds. *)
Fixpoint run (r : regex) (st : mstate) (k : mstate -> option mstate)
  : option mstate :=
  match r with
  | Eps => k st
  | Atom cl =>
      match rest st with
      | c :: s' =>
          if accepts fl cl c
          then k {| pos := S (pos st); rest := s'; groups := groups st |}
          else None
      | [] => None
      end
  | Cat r1 r2 => run r1 st (fun st' => run r2 st' k)
  | Alt r1 r2 =>
      match run r1 st k with
      | Some x => Some x
      | None => run r2 st k
      end
  | Star cl =>
      star_greedy cl (pos st) (rest st)
        (fun p s => k {| pos := p; rest := s; groups := groups st |})
  | StarLazy cl =>
      star_lazy cl (pos st) (rest st)
        (fun p s => k {| pos := p; rest := s; groups := groups st |})
  | Opt r1 =>
      match run r1 st k with
      | Some x => Some x
      | None => k st
      end
  | Group n r1 =>
      run r1 st
        (fun st' =>
           k {| pos := pos st'; rest := rest st';
                groups := (n, firstn (pos st' - pos st) (rest st))
                            :: groups st' |})
  | Ahead r1 =>
      match run r1 st Some with
      | Some st' =>
          k {| pos := pos st; rest := rest st; groups := groups st' |}
      | None => None
      end
  | Bos => if Nat.eqb (pos st) 0 then k st else None
  | Eos =>
      match rest st with
      | [] => k st
      | [c] => if eqc c newline then k st else None
      | _ => None
      end
  end.

(** One attempt of the pattern at position [p], where [s] is the subject
    from [p] on. *)
Definition exec (r : regex) (p : nat) (s : str) : option mstate :=
  run r {| pos := p; rest := s; groups := [] |} Some.

(** [m.group(n)] of a match. *)
Fixpoint group_lookup (n : nat) (gs : list (nat * str)) : option str :=
  match gs with
  | [] => None
  | (i, s) :: gs' => if Nat.eqb i n then Some s else group_lookup n gs'
  end.

Definition group (n : nat) (m : mstate) : option str :=
  group_lookup n (groups m).

(** [re.match(r, s, flags)]: one attempt at the start of [s]. *)
Definition re_match (r : regex) (s : str) : option mstate := exec r 0 s.

(** [re.findall(r, s, flags)] for a pattern with one group: the group of
    every match, scanning from the left; the scan resumes where a match
    ended.  [skip] counts the characters of the last match that are still
    being passed.  (The script's pattern never matches the empty string;
    after an empty match this scan moves on by one character.) *)
Fixpoint findall_go (r : regex) (skip p : nat) (s : str) : list str :=
  match skip with
  | S n =>
      match s with
      | [] => []
      | _ :: s' => findall_go r n (S p) s'
      end
  | O =>
      match exec r p s with
      | Some m =>
          default [] (group 1 m)
            :: match s with
               | [] => []
               | _ :: s' => findall_go r (pos m - p - 1) (S p) s'
               end
      | None =>
          match s with
          | [] => []
          | _ :: s' => findall_go r 0 (S p) s'
          end
      end
  end.

Definition findall (r : regex) (s : str) : list str := findall_go r 0 0 s.

End Matcher.

(** A literal word of a pattern, character by character. *)
Fixpoint word (w : str) : regex :=
  match w with
  | [] => Eps
  | c :: w' => Cat (Atom (CChar c)) (word w')
  end.

End PyRe.

Import PyRe.

(* ===================================================================== *)
(** * The text functions of the script *)
(* ===================================================================== *)

(** ** [break_down_page_into_parts] *)

(** The loop state: the parts closed so far and the running buffer. *)
Record chunk_state : Type :=
  { parts : list str; current_part : str }.

(** One iteration of [for sentence in text.split(". ")]. *)
Definition chunk_step (part_size : Z) (st : chunk_state) (sentence : str)
  : chunk_state :=
  if (len (current_part st) + len sentence + 1 <=? part_size)%Z
  then {| parts := parts st;
          current_part := current_part st ++ sentence ++ lit ". " |}
  else {| parts := parts st ++ [strip (current_part st)];
          current_part := sentence ++ lit ". " |}.

Definition chunk_finish (st : chunk_state) : list str :=
  if truthy (current_part st)
  then parts st ++ [strip (current_part st)]
  else parts st.

Definition chunk_sentences (part_size : Z) (sentences : list str) : list str :=
  chunk_finish
    (fold_left (chunk_step part_size) sentences
               {| parts := []; current_part := [] |}).

Definition break_down_page_into_parts (text : str) (part_size : Z) : list str :=
  chunk_sentences part_size (split (lit ". ") text).

(** The default [part_size=500]. *)
Definition default_part_size : Z := 500.

(** ** [extract_assistant_responses] *)

(** [r"<\|assistant\|>(.*?)(?=<\|system\|>|<\|user\|>|$)"] *)
Definition assistant_pattern : regex :=
  Cat (word (lit "<|assistant|>"))
      (Cat (Group 1 (StarLazy CDot))
           (Ahead (Alt (word (lit "<|system|>"))
                       (Alt (word (lit "<|user|>")) Eos)))).

(** [re.DOTALL] *)
Definition assistant_flags : flags :=
  {| IGNORECASE := false; DOTALL := true |}.

(** [[response.strip() for response in matches if response.strip()]] *)
Definition cleaned (matches : list str) : list str :=
  List.filter truthy (List.map strip matches).

Definition extract_assistant_responses (text : str) : option str :=
  let matches := findall assistant_flags assistant_pattern text in
  match cleaned matches with
  | r :: _ => Some r
  | [] => None
  end.

(** ** [extract_questions_and_answers] *)

(** An element of [qa_dict["qa_pairs"]]. *)
Record qa_pair : Type := { question : str; answer : str }.

(** The marker patterns: [^], the literal word, an optional run of
    whitespace then digits, an optional colon, a run of whitespace (all
    greedy, outside any capturing group), then group 1, a lazy run of [.],
    and [$].  In the script: [Question] and [Answer] in place of the word. *)
Definition marker_pattern (w : str) : regex :=
  Cat Bos
      (Cat (Cat (word w)
                (Cat (Opt (Cat (Star CSpace) (Star CDigit)))
                     (Cat (Opt (Atom (CChar ":"%char))) (Star CSpace))))
           (Cat (Group 1 (StarLazy CDot)) Eos)).

Definition question_pattern : regex := marker_pattern (lit "Question").
Definition answer_pattern : regex := marker_pattern (lit "Answer").

(** [re.IGNORECASE] *)
Definition marker_flags : flags :=
  {| IGNORECASE := true; DOTALL := false |}.

(** [re.match(question_pattern, line, re.IGNORECASE)], reduced to what the
    script reads from the match: [None] when there is no match, else
    [group(1)]. *)
Definition question_match (line : str) : option (option str) :=
  group 1 <$> re_match marker_flags question_pattern line.

Definition answer_match (line : str) : option (option str) :=
  group 1 <$> re_match marker_flags answer_pattern line.

(** The loop state of the parser. *)
Record parse_state : Type :=
  { current_question : option str;
    current_answer : option str;
    qa_dict : list qa_pair }.

(** [if current_question and current_answer: qa_pairs.append(...)] *)
Definition flush (st : parse_state) : list qa_pair :=
  match current_question st, current_answer st with
  | Some q, Some a =>
      if truthy q && truthy a
      then qa_dict st ++ [{| question := strip q; answer := strip a |}]
      else qa_dict st
  | _, _ => qa_dict st
  end.

(** One iteration of [for line in lines]. *)
Definition parse_line (st : parse_state) (raw : str) : parse_state :=
  let line := strip raw in
  if negb (truthy line) then st
  else
    match question_match line with
    | Some g =>
        {| current_question := g;
           current_answer := None;
           qa_dict := flush st |}
    | None =>
        match answer_match line with
        | Some g =>
            {| current_question := current_question st;
               current_answer := g;
               qa_dict := qa_dict st |}
        | None =>
            match current_answer st with
            | Some a =>
                {| current_question := current_question st;
                   current_answer := Some (a ++ lit " " ++ line);
                   qa_dict := qa_dict st |}
            | None =>
                if truthy_opt (current_question st)
                   && negb (truthy_opt (current_answer st))
                then {| current_question := current_question st;
                        current_answer := Some line;
                        qa_dict := qa_dict st |}
                else st
            end
        end
    end.

Definition parse_init : parse_state :=
  {| current_question := None; current_answer := None; qa_dict := [] |}.

Definition parse_lines (lines : list str) : list qa_pair :=
  flush (fold_left parse_line lines parse_init).

(** The value of [qa_dict["qa_pairs"]] in the dictionary returned. *)
Definition extract_questions_and_answers (text : str) : list qa_pair :=
  if negb (truthy text) then []
  else parse_lines (split [newline] text).


(* ===================================================================== *)
(** * Ledger, deck and the outside world *)
(* ===================================================================== *)

(** [l[start:]] on a Python list: a negative [start] counts from the end,
    and both ends are clamped. *)
Definition py_slice_from {A : Type} (l : list A) (start : Z) : list A :=
  if (start <? 0)%Z
  then drop (Z.to_nat (Z.max 0 (Z.of_nat (length l) + start))) l
  else drop (Z.to_nat start) l.

(** [str(n)] for an integer. *)
Definition py_str_of_int (n : Z) : str :=
  lit (NilEmpty.string_of_int (Z.to_int n)).

(** An element of [qa_data["qa_pairs"]]: a parsed pair with the two keys
    that [main] adds to it. *)
Record qa_record : Type :=
  { pair : qa_pair; page_number : Z; part_number : Z }.

(** [qa_data["metadata"]]. *)
Record metadata_t : Type :=
  { last_processed_page : Z;
    total_pages_processed : Z;
    total_questions : Z;
    last_update : str;
    last_anki_card_index : Z }.

(** The ledger dictionary [qa_data]. *)
Record qa_data_t : Type :=
  { metadata : metadata_t; qa_pairs : list qa_record }.

Definition set_last_anki_card_index (i : Z) (d : qa_data_t) : qa_data_t :=
  {| metadata :=
       {| last_processed_page := last_processed_page (metadata d);
          total_pages_processed := total_pages_processed (metadata d);
          total_questions := total_questions (metadata d);
          last_update := last_update (metadata d);
          last_anki_card_index := i |};
     qa_pairs := qa_pairs d |}.

Definition set_last_update (t : str) (d : qa_data_t) : qa_data_t :=
  {| metadata :=
       {| last_processed_page := last_processed_page (metadata d);
          total_pages_processed := total_pages_processed (metadata d);
          total_questions := total_questions (metadata d);
          last_update := t;
          last_anki_card_index := last_anki_card_index (metadata d) |};
     qa_pairs := qa_pairs d |}.

Definition set_last_processed_page (p : Z) (d : qa_data_t) : qa_data_t :=
  {| metadata :=
       {| last_processed_page := p;
          total_pages_processed := total_pages_processed (metadata d);
          total_questions := total_questions (metadata d);
          last_update := last_update (metadata d);
          last_anki_card_index := last_anki_card_index (metadata d) |};
     qa_pairs := qa_pairs d |}.

Definition set_total_questions (n : Z) (d : qa_data_t) : qa_data_t :=
  {| metadata :=
       {| last_processed_page := last_processed_page (metadata d);
          total_pages_processed := total_pages_processed (metadata d);
          total_questions := n;
          last_update := last_update (metadata d);
          last_anki_card_index := last_anki_card_index (metadata d) |};
     qa_pairs := qa_pairs d |}.

Definition set_total_pages_processed (n : Z) (d : qa_data_t) : qa_data_t :=
  {| metadata :=
       {| last_processed_page := last_processed_page (metadata d);
          total_pages_processed := n;
          total_questions := total_questions (metadata d);
          last_update := last_update (metadata d);
          last_anki_card_index := last_anki_card_index (metadata d) |};
     qa_pairs := qa_pairs d |}.

(** [qa_data["qa_pairs"].extend(rs)]. *)
Definition extend_qa_pairs (rs : list qa_record) (d : qa_data_t) : qa_data_t :=
  {| metadata := metadata d; qa_pairs := qa_pairs d ++ rs |}.

(** The dictionary that [load_or_create_qa_file] starts a new file with. *)
Definition initial_data : qa_data_t :=
  {| metadata :=
       {| last_processed_page := 9;
          total_pages_processed := 0;
          total_questions := 0;
          last_update := [];
          last_anki_card_index := -1 |};
     qa_pairs := [] |}.

(** A [genanki.Note] of [CHEMISTRY_MODEL]: its three fields. *)
Record note : Type := { fields : list str }.

(** A [genanki.Deck]: identifier, name and the notes added so far. *)
Record deck_t : Type := { deck_id : Z; deck_name : str; notes : list note }.

Definition add_note (n : note) (d : deck_t) : deck_t :=
  {| deck_id := deck_id d; deck_name := deck_name d; notes := notes d ++ [n] |}.

Definition note_of (r : qa_record) : note :=
  {| fields := [question (pair r); answer (pair r);
                py_str_of_int (page_number r)] |}.

(** ** [add_new_cards_to_deck] *)

(** The loop over [enumerate(slice, start=i)]: every record of the slice
    becomes a note, and the index it was enumerated with is stored. *)
Fixpoint add_cards_loop (new : list qa_record) (i : Z)
         (new_cards_added : Z) (deck : deck_t) (qa_data : qa_data_t)
  : Z * deck_t * qa_data_t :=
  match new with
  | [] => (new_cards_added, deck, qa_data)
  | r :: new' =>
      add_cards_loop new' (i + 1) (new_cards_added + 1)
                     (add_note (note_of r) deck)
                     (set_last_anki_card_index i qa_data)
  end.

(** Returns [new_cards_added] with the deck and the ledger as the call
    leaves them (both are mutated in place by the script). *)
Definition add_new_cards_to_deck (deck : deck_t) (qa_data : qa_data_t)
  : Z * deck_t * qa_data_t :=
  let last_processed_index := last_anki_card_index (metadata qa_data) in
  add_cards_loop
    (py_slice_from (qa_pairs qa_data) (last_processed_index + 1))
    (last_processed_index + 1) 0 deck qa_data.

(** ** Files, clock, PDF and model *)

Section Script.

(** The text of a JSON file, with [json.dump] and [json.load] restricted
    to ledger dictionaries; [json_load] is [None] where [json.load]
    raises [JSONDecodeError]. *)
Variable json_text : Type.
Variable json_dump : qa_data_t -> json_text.
Variable json_load : json_text -> option qa_data_t.

(** [datetime.now().isoformat()] at each tick of the clock. *)
Variable isoformat : nat -> str.

(** A page of the PDF: what [page.extract_text()] does. *)
Inductive page_t : Type :=
| PageText (text : str)
| PageNone
| PageRaises.

(** [generate_questions]: the generated transcript for the n-th call of
    the pipeline on a context, or [None] when the call raises. *)
Variable generate_questions : nat -> str -> option str.

(** The identifier drawn by [random.randrange] for the deck. *)
Variable random_deck_id : Z.

(** Calls to the collaborators, in the order they are made. *)
Inductive event : Type :=
| EvExtractText (page_num : Z)
| EvGenerate (context : str)
| EvWriteDeck (d : deck_t)
| EvWriteLedger (d : qa_data_t).

(** The world outside: the text files by name, the deck package
    [OUTPUT.apkg] if it was written, the clock, the number of calls of the
    model so far and the log of calls. *)
Record world : Type :=
  { fs : gmap string json_text;
    apkg : option deck_t;
    clock : nat;
    calls : nat;
    log : list event }.

Definition write_file (name : string) (t : json_text) (w : world) : world :=
  {| fs := <[name := t]> (fs w); apkg := apkg w; clock := clock w;
     calls := calls w; log := log w |}.

(** [os.replace(src, dst)] when [src] exists. *)
Definition os_replace (src dst : string) (w : world) : world :=
  match fs w !! src with
  | Some t =>
      {| fs := <[dst := t]> (delete src (fs w)); apkg := apkg w;
         clock := clock w; calls := calls w; log := log w |}
  | None => w
  end.

Definition emit (e : event) (w : world) : world :=
  {| fs := fs w; apkg := apkg w; clock := clock w; calls := calls w;
     log := log w ++ [e] |}.

Definition tick (w : world) : world :=
  {| fs := fs w; apkg := apkg w; clock := S (clock w); calls := calls w;
     log := log w |}.

(** ** [load_or_create_qa_file] *)
Definition load_or_create_qa_file (filename : string) (w : world)
  : qa_data_t * world :=
  match
    match fs w !! filename with
    | Some t => json_load t
    | None => None
    end
  with
  | Some data => (data, w)
  | None =>
      (initial_data,
       emit (EvWriteLedger initial_data)
            (write_file filename (json_dump initial_data) w))
  end.

(** ** [create_or_load_deck] *)
Definition create_or_load_deck : deck_t :=
  {| deck_id := random_deck_id; deck_name := lit "CHEMISTRY"; notes := [] |}.

(** ** [save_deck] *)
Definition save_deck (deck : deck_t) (w : world) : world :=
  emit (EvWriteDeck deck)
       {| fs := fs w; apkg := Some deck; clock := clock w; calls := calls w;
          log := log w |}.

(** ** [save_qa_data] *)
Definition save_qa_data (data : qa_data_t) (filename : string) (w : world)
  : qa_data_t * world :=
  let data' := set_last_update (isoformat (clock w)) data in
  let temp_filename := (filename +:+ ".tmp")%string in
  let w1 := write_file temp_filename (json_dump data') (tick w) in
  (data', emit (EvWriteLedger data') (os_replace temp_filename filename w1)).

(** ** [main] *)

(** The ledger and deck files of the script. *)
Definition qa_file : string := "qa_data.json".

(** What [main] holds while it runs: the ledger dictionary, the deck and
    the world outside. *)
Record run_state : Type :=
  { qa_data : qa_data_t; deck : deck_t; outside : world }.

(** [new_cards = add_new_cards_to_deck(deck, qa_data)] followed by
    [if new_cards > 0: save_deck(deck)]. *)
Definition sync_deck (st : run_state) : Z * run_state :=
  let '(new_cards, deck', qa_data') :=
    add_new_cards_to_deck (deck st) (qa_data st) in
  (new_cards,
   {| qa_data := qa_data'; deck := deck';
      outside := if (new_cards >? 0)%Z then save_deck deck' (outside st)
                 else outside st |}).

Definition save_progress (st : run_state) : run_state :=
  let '(data', w') := save_qa_data (qa_data st) qa_file (outside st) in
  {| qa_data := data'; deck := deck st; outside := w' |}.

Definition update_qa_data (f : qa_data_t -> qa_data_t) (st : run_state)
  : run_state :=
  {| qa_data := f (qa_data st); deck := deck st; outside := outside st |}.

(** The call of the pipeline: it is recorded, counted, and may raise. *)
Definition call_generate (context : str) (st : run_state)
  : option str * run_state :=
  let w := outside st in
  (generate_questions (calls w) context,
   {| qa_data := qa_data st; deck := deck st;
      outside := {| fs := fs w; apkg := apkg w; clock := clock w;
                    calls := S (calls w);
                    log := log w ++ [EvGenerate context] |} |}).

(** The two keys added to each parsed pair. *)
Definition stamp (page_num : Z) (part_no : Z) (p : qa_pair) : qa_record :=
  {| pair := p; page_number := page_num; part_number := part_no |}.

(** The body of [for i, part in enumerate(parts)], with its [try]: returns
    the state and whether the part set [page_has_valid_qa]. *)
Definition process_part (page_num : Z) (i : nat) (part : str)
           (st : run_state) : bool * run_state :=
  match call_generate part st with
  | (None, st1) => (false, st1)               (* except Exception: continue *)
  | (Some result, st1) =>
      match extract_assistant_responses result with
      | Some response =>
          if truthy response
          then
            let found := extract_questions_and_answers response in
            match found with
            | [] => (false, st1)
            | _ :: _ =>
                let st2 :=
                  update_qa_data
                    (extend_qa_pairs
                       (List.map (stamp page_num (Z.of_nat i + 1)) found))
                    st1 in
                let st3 :=
                  update_qa_data (set_last_processed_page page_num) st2 in
                let st4 :=
                  update_qa_data
                    (fun d => set_total_questions
                                (Z.of_nat (length (qa_pairs d))) d) st3 in
                let '(_, st5) := sync_deck st4 in
                (true, save_progress st5)
            end
          else (false, st1)
      | None => (false, st1)
      end
  end.

Fixpoint process_parts (page_num : Z) (i : nat) (parts : list str)
         (page_has_valid_qa : bool) (st : run_state) : bool * run_state :=
  match parts with
  | [] => (page_has_valid_qa, st)
  | part :: parts' =>
      let '(valid, st') := process_part page_num i part st in
      process_parts page_num (S i) parts' (page_has_valid_qa || valid) st'
  end.

Inductive outcome : Type :=
| Returned
| Raised.

(** The body of [for page_num, page in enumerate(...)]. *)
Definition process_page (page_num : Z) (page : page_t) (st : run_state)
  : outcome * run_state :=
  let st0 :=
    {| qa_data := qa_data st; deck := deck st;
       outside := emit (EvExtractText page_num) (outside st) |} in
  match page with
  | PageRaises => (Raised, st0)
  | PageNone => (Returned, st0)
  | PageText text =>
      if negb (truthy text) then (Returned, st0)
      else
        let parts := break_down_page_into_parts text default_part_size in
        let '(page_has_valid_qa, st1) :=
          process_parts page_num 0 parts false st0 in
        let st2 :=
          if page_has_valid_qa
          then save_progress
                 (update_qa_data
                    (fun d => set_total_pages_processed
                                (total_pages_processed (metadata d) + 1) d)
                    st1)
          else st1 in
        (Returned,
         save_progress
           (update_qa_data (set_last_processed_page page_num) st2))
  end.

Fixpoint process_pages (page_num : Z) (pages : list page_t)
         (st : run_state) : outcome * run_state :=
  match pages with
  | [] => (Returned, st)
  | page :: pages' =>
      match process_page page_num page st with
      | (Raised, st') => (Raised, st')
      | (Returned, st') => process_pages (page_num + 1) pages' st'
      end
  end.

(** [main], for a PDF given by its pages ([None] when it cannot be
    opened).  An exception that leaves the [try] saves the ledger and is
    raised again. *)
Definition main (pdf : option (list page_t)) (w : world)
  : outcome * run_state :=
  let '(qa_data0, w0) := load_or_create_qa_file qa_file w in
  let st0 :=
    {| qa_data := qa_data0; deck := create_or_load_deck; outside := w0 |} in
  let '(_, st1) := sync_deck st0 in
  let start_page := (last_processed_page (metadata (qa_data st1)) + 1)%Z in
  match pdf with
  | None => (Raised, save_progress st1)
  | Some pages =>
      let total_pages := Z.of_nat (length pages) in
      if (start_page >=? total_pages)%Z then (Returned, st1)
      else
        match process_pages start_page (py_slice_from pages start_page) st1
        with
        | (Raised, st') => (Raised, save_progress st')
        | (Returned, st') => (Returned, st')
        end
  end.

End Script.

(* ===================================================================== *)
(** * Vocabulary of the statements *)
(* ===================================================================== *)

(** [m in s] for strings. *)
Fixpoint contains (m s : str) : bool :=
  startswith m s
  || match s with
     | [] => false
     | _ :: s' => contains m s'
     end.

(** ["\n".join(lines)]: the text whose lines are [lines]. *)
Fixpoint join_lines (lines : list str) : str :=
  match lines with
  | [] => []
  | [l] => l
  | l :: ls => l ++ newline :: join_lines ls
  end.

(** The same for lines written as string literals. *)
Definition joined (lines : list string) : str :=
  join_lines (List.map lit lines).

(** ** Chunker *)

(** A part [p] emitted for the sentences [ss] respects [limit]: it is
    empty, or at most [limit] long, or it is one sentence of at least
    [limit] characters, closed with its period and trimmed. *)
Definition part_within (limit : Z) (ss : list str) (p : str) : Prop :=
  p = []
  \/ (len p <= limit)%Z
  \/ exists s, In s ss /\ (limit <= len s)%Z /\ p = strip (s ++ lit ". ").

(** The running buffer: empty, or sentences closed with the delimiter,
    short enough or a single long sentence. *)
Definition buffer_within (limit : Z) (ss : list str) (b : str) : Prop :=
  b = []
  \/ exists body,
       b = body ++ lit ". "
       /\ ((len body + 1 <= limit)%Z \/ (In body ss /\ (limit <= len body)%Z)).

Definition chunk_inv (limit : Z) (ss : list str) (st : chunk_state) : Prop :=
  Forall (part_within limit ss) (parts st)
  /\ buffer_within limit ss (current_part st).

(** ** Direct forms of the matcher on the script's patterns *)

(** [s] without its longest prefix of characters satisfying [f], and the
    length of that prefix. *)
Fixpoint drop_while (f : ascii -> bool) (s : str) : str :=
  match s with
  | c :: s' => if f c then drop_while f s' else s
  | [] => []
  end.

Fixpoint run_length (f : ascii -> bool) (s : str) : nat :=
  match s with
  | c :: s' => if f c then S (run_length f s') else 0
  | [] => 0
  end.

(** What is left of [s] after the literal word [w], if [s] starts with it
    (up to case under [IGNORECASE]). *)
Fixpoint word_rest (fl : flags) (w s : str) : option str :=
  match w with
  | [] => Some s
  | a :: w' =>
      match s with
      | c :: s' => if accepts fl (CChar a) c then word_rest fl w' s' else None
      | [] => None
      end
  end.

Definition skip_colon (s : str) : str :=
  match s with
  | c :: s' => if eqc c ":"%char then s' else s
  | [] => []
  end.

(** The text that a marker line carries after its marker: the word, then
    whitespace, digits, a colon and whitespace are passed. *)
Definition marker_rest (w line : str) : option str :=
  match word_rest marker_flags w line with
  | Some r =>
      Some (drop_while isspace
              (skip_colon (drop_while isdigit (drop_while isspace r))))
  | None => None
  end.

Definition no_newline (s : str) : Prop := Forall (fun c => c <> newline) s.

(** The three role markers of a transcript. *)
Definition assistant_marker : str := lit "<|assistant|>".
Definition system_marker : str := lit "<|system|>".
Definition user_marker : str := lit "<|user|>".

(** Where the look-ahead of [assistant_pattern] holds: before a system or
    user marker, at the end, or before a newline that ends the text. *)
Definition at_stop (s : str) : bool :=
  startswith system_marker s || startswith user_marker s
  || match s with
     | [] => true
     | [c] => eqc c newline
     | _ => false
     end.

(** The shortest prefix of [s] that ends where the look-ahead holds. *)
Fixpoint re_span (s : str) : str :=
  if at_stop s then []
  else match s with
       | c :: s' => c :: re_span s'
       | [] => []
       end.

(** [findall] on [assistant_pattern], as a scan of the text. *)
Fixpoint assistant_matches_go (skip : nat) (s : str) : list str :=
  match skip with
  | S n =>
      match s with
      | [] => []
      | _ :: s' => assistant_matches_go n s'
      end
  | O =>
      if startswith assistant_marker s
      then
        let sp := re_span (drop (length assistant_marker) s) in
        sp :: match s with
              | [] => []
              | _ :: s' =>
                  assistant_matches_go
                    (length assistant_marker + length sp - 1) s'
              end
      else
        match s with
        | [] => []
        | _ :: s' => assistant_matches_go 0 s'
        end
  end.

(** ** Turn extraction in the words of the specification *)

(** The text up to the next occurrence of one of the markers [stops], or
    to the end of the string. *)
Fixpoint span_until (stops : list str) (s : str) : str :=
  if existsb (fun m => startswith m s) stops then []
  else match s with
       | c :: s' => c :: span_until stops s'
       | [] => []
       end.

(** All spans between an assistant marker and the next marker of [stops]
    or the end of the string, from left to right; the search resumes
    where a span ended. *)
Fixpoint turn_spans_go (stops : list str) (skip : nat) (s : str) : list str :=
  match s with
  | [] => []
  | _ :: s' =>
      match skip with
      | S n => turn_spans_go stops n s'
      | O =>
          if startswith assistant_marker s
          then
            let sp := span_until stops (drop (length assistant_marker) s) in
            sp :: turn_spans_go stops
                    (length assistant_marker + length sp - 1) s'
          else turn_spans_go stops 0 s'
      end
  end.

Definition turn_spans (stops : list str) (s : str) : list str :=
  turn_spans_go stops 0 s.

(** Trim each span, discard the empty ones, return the first that is left. *)
Definition first_turn (stops : list str) (s : str) : option str :=
  head (List.filter truthy (List.map strip (turn_spans stops s))).

(** The stops of the specification's sentence (any role marker) and the
    stops of the script's pattern. *)
Definition any_role_marker : list str :=
  [assistant_marker; system_marker; user_marker].

Definition system_or_user_marker : list str :=
  [system_marker; user_marker].

(** ** Q&A parser *)

(** A string with a character that is not whitespace. *)
Definition has_ink (s : str) : bool := existsb (fun c => negb (isspace c)) s.

(** An optional string that is empty or has ink: trimming it leaves it
    empty only if it is empty already. *)
Definition opt_clean (o : option str) : Prop :=
  match o with
  | Some s => s = [] \/ has_ink s = true
  | None => True
  end.

Definition parse_inv (st : parse_state) : Prop :=
  Forall (fun p => question p <> [] /\ answer p <> []) (qa_dict st)
  /\ opt_clean (current_question st)
  /\ opt_clean (current_answer st).

(** How [parse_line] reads a raw line as a question marker: [None] for a
    blank line or a line that the question pattern does not match, else
    the text that follows the marker. *)
Definition question_line (raw : str) : option (option str) :=
  let line := strip raw in
  if truthy line then question_match line else None.

Arguments fs {json_text}.
Arguments apkg {json_text}.
Arguments clock {json_text}.
Arguments calls {json_text}.
Arguments log {json_text}.
Arguments qa_data {json_text}.
Arguments deck {json_text}.
Arguments outside {json_text}.
Arguments write_file {json_text}.
Arguments os_replace {json_text}.
Arguments emit {json_text}.
Arguments tick {json_text}.
Arguments load_or_create_qa_file {json_text}.
Arguments save_deck {json_text}.
Arguments save_qa_data {json_text}.
Arguments sync_deck {json_text}.
Arguments save_progress {json_text}.
Arguments update_qa_data {json_text}.
Arguments call_generate {json_text}.
Arguments process_part {json_text}.
Arguments process_parts {json_text}.
Arguments process_page {json_text}.
Arguments process_pages {json_text}.
Arguments main {json_text}.

(** ** Ledger and deck *)

(** The deck with the notes [ns] added at the end. *)
Definition add_notes (ns : list note) (d : deck_t) : deck_t :=
  {| deck_id := deck_id d; deck_name := deck_name d; notes := notes d ++ ns |}.

(** The watermark invariant: the index of the last card is [-1] or the
    index of a record. *)
Definition watermark_ok (d : qa_data_t) : Prop :=
  (-1 <= last_anki_card_index (metadata d)
   < Z.of_nat (length (qa_pairs d)))%Z.

(** The ledger after [add_new_cards_to_deck]. *)
Definition synced (deck : deck_t) (d : qa_data_t) : qa_data_t :=
  snd (add_new_cards_to_deck deck d).

(** The mutations that the script applies to the ledger dictionary. *)
Inductive ledger_step : qa_data_t -> qa_data_t -> Prop :=
| step_extend (rs : list qa_record) (d : qa_data_t) :
    ledger_step d (extend_qa_pairs rs d)
| step_last_processed_page (p : Z) (d : qa_data_t) :
    ledger_step d (set_last_processed_page p d)
| step_total_questions (n : Z) (d : qa_data_t) :
    ledger_step d (set_total_questions n d)
| step_total_pages_processed (n : Z) (d : qa_data_t) :
    ledger_step d (set_total_pages_processed n d)
| step_last_update (t : str) (d : qa_data_t) :
    ledger_step d (set_last_update t d)
| step_sync (deck : deck_t) (d : qa_data_t) :
    ledger_step d (synced deck d).

(** The ledgers that the script reaches from the one it starts a new file
    with. *)
Inductive reachable : qa_data_t -> Prop :=
| reach_initial : reachable initial_data
| reach_step (d d' : qa_data_t) :
    reachable d -> ledger_step d d' -> reachable d'.

(** ** Sample data *)

Definition sample_record (n : Z) : qa_record :=
  {| pair := {| question := lit "Q"; answer := lit "A" |};
     page_number := n; part_number := 1 |}.

Definition sample_ledger (last_page watermark : Z) (rs : list qa_record)
  : qa_data_t :=
  {| metadata :=
       {| last_processed_page := last_page;
          total_pages_processed := 0;
          total_questions := Z.of_nat (length rs);
          last_update := [];
          last_anki_card_index := watermark |};
     qa_pairs := rs |}.

Definition sample_deck : deck_t :=
  {| deck_id := 1; deck_name := lit "CHEMISTRY"; notes := [] |}.

(** A stand-in for the JSON codec: the text of a file is the ledger it
    encodes, or nothing when it does not parse. *)
Definition sample_dump (d : qa_data_t) : option qa_data_t := Some d.
Definition sample_load (t : option qa_data_t) : option qa_data_t := t.

Definition sample_world (files : gmap string (option qa_data_t))
  : world (option qa_data_t) :=
  {| fs := files; apkg := None; clock := 0; calls := 0; log := [] |}.

Definition sample_clock (tick : nat) : str := lit "2026-01-01T00:00:00".

Definition sample_model (n : nat) (context : str) : option str := None.

(** A ledger at the end of a ten-page document, with three records that
    have no card yet. *)
Definition resume_ledger : qa_data_t :=
  sample_ledger 9 (-1) [sample_record 7; sample_record 8; sample_record 9].

(** ** Further vocabulary *)

(** [sep.join(pieces)]. *)
Fixpoint py_join (sep : str) (pieces : list str) : str :=
  match pieces with
  | [] => []
  | [p] => p
  | p :: ps => p ++ sep ++ py_join sep ps
  end.

(** A sentence as the chunker puts it into its buffer. *)
Definition with_delimiter (sentence : str) : str := sentence ++ lit ". ".

(** Whether [parse_line] reads the raw line as a question marker. *)
Definition is_question_line (raw : str) : bool :=
  match question_line raw with
  | Some _ => true
  | None => false
  end.

(** One for a question that the parser holds, none otherwise. *)
Definition pending (st : parse_state) : nat :=
  match current_question st with
  | Some _ => 1
  | None => 0
  end.

(** ** Invariants of a run *)

(** A record that [main] appends while it works from page [start_page]
    on: both texts are there, and the page and the part are in range. *)
Definition record_ok (start_page : Z) (r : qa_record) : Prop :=
  question (pair r) <> []
  /\ answer (pair r) <> []
  /\ (start_page <= page_number r)%Z
  /\ (1 <= part_number r)%Z.

(** What holds of the state of [main] after the first synchronisation,
    with respect to the ledger [d0] that was loaded. *)
Definition run_inv {json_text : Type} (d0 : qa_data_t)
           (st : run_state json_text) : Prop :=
  (exists new,
      qa_pairs (qa_data st) = qa_pairs d0 ++ new
      /\ Forall (record_ok (last_processed_page (metadata d0) + 1)) new)
  /\ (last_processed_page (metadata d0)
      <= last_processed_page (metadata (qa_data st)))%Z
  /\ (total_questions (metadata d0) = Z.of_nat (length (qa_pairs d0)) ->
      total_questions (metadata (qa_data st))
      = Z.of_nat (length (qa_pairs (qa_data st))))
  /\ (watermark_ok d0 ->
      last_anki_card_index (metadata (qa_data st))
      = (Z.of_nat (length (qa_pairs (qa_data st))) - 1)%Z
      /\ notes (deck st)
         = List.map note_of
             (drop (Z.to_nat (last_anki_card_index (metadata d0) + 1))
                   (qa_pairs (qa_data st)))).

(** The ledger file holds the ledger that [main] has in memory. *)
Definition ledger_on_disk {json_text : Type}
           (json_load : json_text -> option qa_data_t)
           (st : run_state json_text) : Prop :=
  exists t, fs (outside st) !! qa_file = Some t
            /\ json_load t = Some (qa_data st).

(** A model that answers every call with one question and its answer. *)
Definition sample_answering_model (n : nat) (context : str) : option str :=
  Some (joined ["<|system|>s<|user|>u<|assistant|>";
                "Question 1: What is it?"; "Answer 1: That."]%string).

(** A ledger in the middle of a document: page 0 is done and its record
    has its card. *)
Definition midway_ledger : qa_data_t := sample_ledger 0 0 [sample_record 0].

Definition sample_pages : list page_t :=
  [PageText (lit "Done before."); PageNone; PageText (lit "Water is wet.")].

(** The contexts that the model was called with, in order. *)
Fixpoint generated (l : list event) : list str :=
  match l with
  | [] => []
  | EvGenerate context :: l' => context :: generated l'
  | _ :: l' => generated l'
  end.

(** The numbers of the pages whose text was asked for, in order. *)
Fixpoint pages_read (l : list event) : list Z :=
  match l with
  | [] => []
  | EvExtractText page_num :: l' => page_num :: pages_read l'
  | _ :: l' => pages_read l'
  end.

(** [count] consecutive page numbers from [first]. *)
Definition page_range (first : Z) (count : nat) : list Z :=
  List.map (fun k => (first + Z.of_nat k)%Z) (seq 0 count).

Definition readable (page : page_t) : Prop := page <> PageRaises.

(* ===================================================================== *)
(** * Properties *)
(* ===================================================================== *)

(** ** Strings *)

Lemma isspace_dot : isspace "."%char = false.
Proof. reflexivity. Qed.

Lemma isspace_blank : isspace " "%char = true.
Proof. reflexivity. Qed.

Lemma isspace_newline : isspace newline = true.
Proof. reflexivity. Qed.

Lemma lstrip_length (s : str) : length (lstrip s) <= length s.
Proof.
  induction s as [|c s IH]; simpl; [lia|].
  destruct (isspace c); simpl; lia.
Qed.

Lemma lstrip_app_nonspace (x y : str) (c : ascii) :
  isspace c = false -> lstrip (x ++ c :: y) = lstrip x ++ c :: y.
Proof.
  intros Hc. induction x as [|a x IH]; simpl.
  - now rewrite Hc.
  - destruct (isspace a); [exact IH | reflexivity].
Qed.

Lemma rstrip_app_nonspace (x y : str) (c : ascii) :
  isspace c = false -> rstrip (x ++ c :: y) = x ++ c :: rstrip y.
Proof.
  intros Hc. unfold rstrip.
  rewrite rev_app_distr. simpl rev. rewrite <- app_assoc. simpl.
  rewrite lstrip_app_nonspace by exact Hc.
  rewrite rev_app_distr. simpl. rewrite rev_involutive.
  now rewrite <- app_assoc.
Qed.

(** A buffer of the chunker ends with the delimiter; trimming it removes
    the final blank and the leading whitespace, and keeps the period. *)
Lemma strip_sentence (b : str) :
  strip (b ++ lit ". ") = lstrip b ++ lit ".".
Proof.
  unfold strip. change (lit ". ") with ("."%char :: [" "%char]).
  rewrite lstrip_app_nonspace by apply isspace_dot.
  rewrite rstrip_app_nonspace by apply isspace_dot.
  reflexivity.
Qed.

Lemma strip_sentence_length (b : str) :
  length (strip (b ++ lit ". ")) <= length b + 1.
Proof.
  rewrite strip_sentence, length_app. simpl.
  pose proof (lstrip_length b). lia.
Qed.

Lemma len_app (a b : str) : len (a ++ b) = (len a + len b)%Z.
Proof. unfold len. rewrite length_app. lia. Qed.

Lemma len_nonneg (a : str) : (0 <= len a)%Z.
Proof. unfold len. lia. Qed.

Lemma startswith_nil_r (sep : str) : startswith sep [] = true -> sep = [].
Proof. destruct sep; [reflexivity | discriminate]. Qed.

(** Without an occurrence of the separator, [split] returns the text as
    its only piece. *)
Lemma split_go_absent (sep : str) (s acc : str) :
  contains sep s = false -> split_go sep 0 acc s = [rev acc ++ s].
Proof.
  revert acc. induction s as [|c s IH]; intros acc H.
  - cbn [split_go]. now rewrite app_nil_r.
  - cbn [contains] in H. apply orb_false_iff in H as [H1 H2].
    cbn [split_go]. rewrite H1. rewrite IH by exact H2.
    cbn [rev]. now rewrite <- app_assoc.
Qed.

Lemma split_absent (sep : str) (s : str) :
  contains sep s = false -> split sep s = [s].
Proof. intros H. unfold split. now rewrite split_go_absent. Qed.

(** ** Chunker *)

Lemma buffer_part_within (limit : Z) (ss : list str) (b : str) :
  buffer_within limit ss b -> part_within limit ss (strip b).
Proof.
  intros [-> | (body & -> & Hb)].
  - now left.
  - right. destruct Hb as [Hshort | [Hin Hlong]].
    + left. pose proof (strip_sentence_length body). unfold len in *. lia.
    + right. exists body. auto.
Qed.

Lemma chunk_step_inv (limit : Z) (ss : list str) (st : chunk_state) (s : str) :
  In s ss -> chunk_inv limit ss st -> chunk_inv limit ss (chunk_step limit st s).
Proof.
  intros Hin [Hparts Hbuf]. unfold chunk_step.
  destruct (len (current_part st) + len s + 1 <=? limit)%Z eqn:Hfit.
  - apply Z.leb_le in Hfit. split; simpl; [exact Hparts|].
    right. exists (current_part st ++ s). split.
    + now rewrite <- app_assoc.
    + left. rewrite len_app. lia.
  - apply Z.leb_gt in Hfit. split; simpl.
    + apply Forall_app. split; [exact Hparts|].
      constructor; [|constructor]. now apply buffer_part_within.
    + right. exists s. split; [reflexivity|].
      destruct (Z_le_gt_dec (len s + 1) limit); [left | right; split]; auto; lia.
Qed.

Lemma chunk_fold_inv (limit : Z) (ss l : list str) (st : chunk_state) :
  (forall s, In s l -> In s ss) ->
  chunk_inv limit ss st ->
  chunk_inv limit ss (fold_left (chunk_step limit) l st).
Proof.
  revert st. induction l as [|s l IH]; intros st Hsub Hinv; simpl.
  - exact Hinv.
  - apply IH.
    + intros x Hx. apply Hsub. now right.
    + apply chunk_step_inv; [apply Hsub; now left | exact Hinv].
Qed.

Lemma chunk_sentences_within (limit : Z) (ss : list str) :
  Forall (part_within limit ss) (chunk_sentences limit ss).
Proof.
  unfold chunk_sentences, chunk_finish.
  assert (Hinv : chunk_inv limit ss
                   (fold_left (chunk_step limit) ss
                      {| parts := []; current_part := [] |})).
  { apply chunk_fold_inv; [auto|]. split; simpl; [constructor | now left]. }
  destruct Hinv as [Hparts Hbuf].
  destruct (truthy _); [|exact Hparts].
  apply Forall_app. split; [exact Hparts|].
  constructor; [|constructor]. now apply buffer_part_within.
Qed.

(** The chunker on a text that holds a single sentence too long to fit. *)
Lemma chunk_single_long_sentence (text : str) (limit : Z) :
  contains (lit ". ") text = false ->
  (limit < len text)%Z ->
  break_down_page_into_parts text limit = [[]; lstrip text ++ lit "."].
Proof.
  intros Hone Hlong. unfold break_down_page_into_parts.
  rewrite split_absent by exact Hone.
  unfold chunk_sentences. cbn [fold_left]. unfold chunk_step.
  cbn [current_part parts].
  replace (len [] + len text + 1 <=? limit)%Z with false
    by (symmetry; apply Z.leb_gt; change (len []) with 0%Z; lia).
  unfold chunk_finish. cbn [current_part parts].
  replace (truthy (text ++ lit ". ")) with true by (now destruct text).
  rewrite strip_sentence. reflexivity.
Qed.

(** C7, as stated, fails where a sentence has exactly [limit] characters:
    with limit 5 the text [abcde] has no sentence longer than 5, yet the
    part [abcde.] has 6 characters. *)
Lemma C7_counterexample :
  ~ (forall p : str,
        In p (break_down_page_into_parts (lit "abcde") 5) ->
        (len p <= 5)%Z
        \/ exists s, In s (split (lit ". ") (lit "abcde"))
                     /\ (5 < len s)%Z /\ p = strip (s ++ lit ". ")).
Proof.
  intros H. specialize (H (lit "abcde.")).
  destruct H as [H | (s & Hs & Hlen & _)].
  - vm_compute. right. left. reflexivity.
  - vm_compute in H. apply H. reflexivity.
  - vm_compute in Hs. destruct Hs as [<- | []].
    vm_compute in Hlen. discriminate.
Qed.

(** C7 (amended): every part emitted by [break_down_page_into_parts] is
    empty, or at most [limit] characters long, or is a single sentence of
    the text that has at least [limit] characters, closed with its period
    and trimmed. *)
Theorem C7_parts_within_limit (text : str) (limit : Z) (p : str) :
  In p (break_down_page_into_parts text limit) ->
  p = []
  \/ (len p <= limit)%Z
  \/ exists s, In s (split (lit ". ") text)
               /\ (limit <= len s)%Z /\ p = strip (s ++ lit ". ").
Proof.
  intros Hin.
  pose proof (chunk_sentences_within limit (split (lit ". ") text)) as Hall.
  rewrite Forall_forall in Hall. apply Hall.
  apply list_elem_of_In. exact Hin.
Qed.

Lemma C7_witness :
  In (lit "abcde.") (break_down_page_into_parts (lit "abcde") 5)
  /\ (lit "abcde." = []
      \/ (len (lit "abcde.") <= 5)%Z
      \/ exists s, In s (split (lit ". ") (lit "abcde"))
                   /\ (5 <= len s)%Z /\ lit "abcde." = strip (s ++ lit ". ")).
Proof.
  assert (Hin : In (lit "abcde.") (break_down_page_into_parts (lit "abcde") 5)).
  { vm_compute. right. left. reflexivity. }
  split; [exact Hin | exact (C7_parts_within_limit _ _ _ Hin)].
Defined.

(** C8, as stated, fails on the empty text: the chunker emits one part,
    the period of the delimiter. *)
Lemma C8_counterexample :
  ~ (break_down_page_into_parts (lit "") default_part_size = []).
Proof. vm_compute. discriminate. Qed.

(** C8 (amended): on the empty text the chunker emits the single part
    [.] (for a limit of at least 1); on a text that is a single sentence
    longer than [limit] the only non-empty part emitted is that sentence
    whole, without its leading whitespace and closed with a period. *)
Theorem C8_chunker_edge_cases :
  (forall limit : Z,
      (1 <= limit)%Z -> break_down_page_into_parts (lit "") limit = [lit "."])
  /\ (forall (text : str) (limit : Z),
         contains (lit ". ") text = false ->
         (limit < len text)%Z ->
         List.filter truthy (break_down_page_into_parts text limit)
         = [lstrip text ++ lit "."]).
Proof.
  split.
  - intros limit Hl. unfold break_down_page_into_parts.
    change (split (lit ". ") (lit "")) with [@nil ascii].
    unfold chunk_sentences. cbn [fold_left]. unfold chunk_step.
    cbn [current_part parts].
    replace (len [] + len [] + 1 <=? limit)%Z with true
      by (symmetry; apply Z.leb_le; change (len []) with 0%Z; lia).
    reflexivity.
  - intros text limit Hone Hlong.
    rewrite chunk_single_long_sentence by assumption.
    cbn [List.filter truthy].
    now destruct (lstrip text).
Qed.

Lemma C8_witness :
  break_down_page_into_parts (lit "") 500 = [lit "."]
  /\ List.filter truthy (break_down_page_into_parts (lit "  abcdef") 5)
     = [lit "abcdef."].
Proof.
  split.
  - apply (proj1 C8_chunker_edge_cases 500%Z). lia.
  - apply (proj2 C8_chunker_edge_cases (lit "  abcdef") 5%Z).
    + reflexivity.
    + vm_compute. reflexivity.
Defined.

(** ** The matcher on the script's patterns *)

Section MatcherFacts.
Variable fl : flags.

(** A literal word matches in one way only. *)
Lemma run_word (w : str) (st : mstate) (k : mstate -> option mstate) :
  run fl (word w) st k
  = match word_rest fl w (rest st) with
    | Some r =>
        k {| pos := length w + pos st; rest := r; groups := groups st |}
    | None => None
    end.
Proof.
  revert st. induction w as [|a w IH]; intros [p s g]; cbn -[accepts].
  - reflexivity.
  - destruct s as [|c s]; [reflexivity|].
    destruct (accepts fl (CChar a) c); [|reflexivity].
    rewrite IH. cbn -[accepts]. destruct (word_rest fl w s); [|reflexivity].
    f_equal. f_equal. lia.
Qed.

(** If what follows a greedy run accepts the longest run, that is the
    match. *)
Lemma star_greedy_longest (cl : cclass) (s : str) (p : nat)
      (k : nat -> str -> option mstate) (r : mstate) :
  k (p + run_length (accepts fl cl) s) (drop_while (accepts fl cl) s)
  = Some r ->
  star_greedy fl cl p s k = Some r.
Proof.
  revert p. induction s as [|c s IH]; intros p Hk; cbn -[accepts] in *.
  - now rewrite Nat.add_0_r in Hk.
  - destruct (accepts fl cl c).
    + rewrite (IH (S p)); [reflexivity|].
      rewrite <- Hk. f_equal. lia.
    + now rewrite Nat.add_0_r in Hk.
Qed.

(** A lazy run of [.] over characters that [.] accepts, with a
    continuation that refuses every non-empty rest made of them, runs
    to the end of the text. *)
Lemma star_lazy_to_end (P : ascii -> Prop) (s : str) (p : nat)
      (k : nat -> str -> option mstate) :
  (forall c, P c -> accepts fl CDot c = true) ->
  (forall q c s', Forall P (c :: s') -> k q (c :: s') = None) ->
  Forall P s ->
  star_lazy fl CDot p s k = k (p + length s) [].
Proof.
  intros Hdot Hk. revert p.
  induction s as [|c s IH]; intros p Hs; cbn -[accepts].
  - rewrite Nat.add_0_r. now destruct (k p []).
  - rewrite Hk by exact Hs. inversion Hs; subst.
    rewrite Hdot by assumption.
    rewrite IH by assumption.
    f_equal. lia.
Qed.

(** The lazy run only looks at the values of its continuation. *)
Lemma star_lazy_ext (cl : cclass) (s : str) (p : nat)
      (k k' : nat -> str -> option mstate) :
  (forall q t, k q t = k' q t) ->
  star_lazy fl cl p s k = star_lazy fl cl p s k'.
Proof.
  intros Hk. revert p.
  induction s as [|c s IH]; intros p; cbn -[accepts]; rewrite Hk.
  - reflexivity.
  - destruct (k' p (c :: s)); [reflexivity|].
    destruct (accepts fl cl c); [apply IH | reflexivity].
Qed.

End MatcherFacts.

Lemma no_newline_cons (c : ascii) (s : str) :
  no_newline (c :: s) -> c <> newline /\ no_newline s.
Proof. intros H. inversion H; subst. auto. Qed.

Lemma no_newline_drop_while (f : ascii -> bool) (s : str) :
  no_newline s -> no_newline (drop_while f s).
Proof.
  induction s as [|c s IH]; intros H; simpl; [exact H|].
  destruct (f c); [|exact H].
  apply IH. now apply no_newline_cons in H.
Qed.

Lemma no_newline_word_rest (fl : flags) (w s r : str) :
  no_newline s -> word_rest fl w s = Some r -> no_newline r.
Proof.
  revert s. induction w as [|a w IH]; intros s Hs H; cbn -[accepts] in H.
  - now inversion H; subst.
  - destruct s as [|c s]; [discriminate|].
    destruct (accepts fl (CChar a) c); [|discriminate].
    apply (IH s); [|exact H]. now apply no_newline_cons in Hs.
Qed.

Lemma no_newline_skip_colon (s : str) :
  no_newline s -> no_newline (skip_colon s).
Proof.
  destruct s as [|c s]; intros H; simpl; [exact H|].
  destruct (eqc c ":"); [|exact H]. now apply no_newline_cons in H.
Qed.

Lemma eqc_true (a b : ascii) : eqc a b = true <-> a = b.
Proof. apply Ascii.eqb_eq. Qed.

Lemma eqc_false (a b : ascii) : eqc a b = false <-> a <> b.
Proof. apply Ascii.eqb_neq. Qed.

Lemma accepts_dot_line (c : ascii) :
  c <> newline -> accepts marker_flags CDot c = true.
Proof.
  intros H. unfold accepts. simpl.
  apply eqc_false in H. now rewrite H.
Qed.

(** Under [IGNORECASE] the colon of the pattern matches a colon only. *)
Lemma accepts_colon (c : ascii) :
  accepts marker_flags (CChar ":"%char) c = eqc c ":"%char.
Proof.
  destruct c as [[] [] [] [] [] [] [] []]; reflexivity.
Qed.

(** The end of a marker pattern, group 1 and [$], takes the whole rest of
    a line. *)
Lemma run_marker_tail (st : mstate) :
  no_newline (rest st) ->
  run marker_flags (Cat (Group 1 (StarLazy CDot)) Eos) st Some
  = Some {| pos := pos st + length (rest st); rest := [];
            groups := (1, rest st) :: groups st |}.
Proof.
  destruct st as [p s g]. cbn [run pos rest groups]. intros Hs.
  rewrite (star_lazy_to_end marker_flags (fun c => c <> newline)).
  - replace (p + length s - p) with (length s) by lia.
    now rewrite firstn_all.
  - apply accepts_dot_line.
  - intros q c s' Hcs. apply no_newline_cons in Hcs as [Hc _].
    destruct s' as [|c' s'']; [|reflexivity].
    apply eqc_false in Hc. now rewrite Hc.
  - exact Hs.
Qed.

(** The optional parts of a marker pattern never make it fail: each greedy
    choice is kept, so group 1 is what follows them. *)
Lemma run_marker_middle (st : mstate) :
  no_newline (rest st) ->
  exists p,
    run marker_flags
        (Cat (Opt (Cat (Star CSpace) (Star CDigit)))
             (Cat (Opt (Atom (CChar ":"%char))) (Star CSpace)))
        st
        (fun st' => run marker_flags (Cat (Group 1 (StarLazy CDot)) Eos) st' Some)
    = Some {| pos := p; rest := [];
              groups :=
                (1, drop_while isspace
                      (skip_colon
                         (drop_while isdigit (drop_while isspace (rest st)))))
                  :: groups st |}.
Proof.
  destruct st as [p s g]. cbn [rest groups]. intros Hs.
  set (K := fun st' : mstate =>
              run marker_flags (Cat (Group 1 (StarLazy CDot)) Eos) st' Some).
  assert (HK : forall q t, no_newline t ->
             K {| pos := q; rest := t; groups := g |}
             = Some {| pos := q + length t; rest := []; groups := (1, t) :: g |}).
  { intros q t Ht. unfold K. now rewrite run_marker_tail. }
  clearbody K.
  set (s1 := drop_while isspace s).
  set (s2 := drop_while isdigit s1).
  assert (H2 : no_newline s2) by now repeat apply no_newline_drop_while.
  assert (Hcolon : forall q,
             exists p',
               run marker_flags
                   (Cat (Opt (Atom (CChar ":"%char))) (Star CSpace))
                   {| pos := q; rest := s2; groups := g |} K
               = Some {| pos := p'; rest := [];
                         groups := (1, drop_while isspace (skip_colon s2)) :: g |}).
  { intros q. cbn [run pos rest groups].
    destruct s2 as [|c s2'].
    - cbn [star_greedy skip_colon drop_while]. rewrite HK by constructor.
      eexists. reflexivity.
    - rewrite accepts_colon. cbn [skip_colon].
      destruct (eqc c ":") eqn:Ec.
      + eexists. erewrite star_greedy_longest; [reflexivity|].
        rewrite HK; [reflexivity|].
        apply no_newline_drop_while. now apply no_newline_cons in H2.
      + eexists. erewrite star_greedy_longest; [reflexivity|].
        rewrite HK; [reflexivity|].
        now apply no_newline_drop_while. }
  cbn [run pos rest groups].
  destruct (Hcolon (p + run_length (accepts marker_flags CSpace) s
                    + run_length (accepts marker_flags CDigit) s1))
    as [p' Hp'].
  exists p'.
  erewrite star_greedy_longest; [reflexivity|].
  erewrite star_greedy_longest; [reflexivity|].
  exact Hp'.
Qed.

(** [re.match] with a marker pattern on a line: it succeeds exactly when
    the line starts with the word, and group 1 is [marker_rest]. *)
Lemma marker_match (w line : str) :
  no_newline line ->
  group 1 <$> re_match marker_flags (marker_pattern w) line
  = Some <$> marker_rest w line.
Proof.
  intros Hl. unfold re_match, exec, marker_rest.
  change (run marker_flags (marker_pattern w)
              {| pos := 0; rest := line; groups := [] |} Some)
    with (run marker_flags (word w)
              {| pos := 0; rest := line; groups := [] |}
              (fun st1 =>
                 run marker_flags
                     (Cat (Opt (Cat (Star CSpace) (Star CDigit)))
                          (Cat (Opt (Atom (CChar ":"%char))) (Star CSpace)))
                     st1
                     (fun st' =>
                        run marker_flags (Cat (Group 1 (StarLazy CDot)) Eos)
                            st' Some))).
  rewrite run_word. cbn [rest pos groups].
  destruct (word_rest marker_flags w line) as [r|] eqn:Hw; [|reflexivity].
  destruct (run_marker_middle {| pos := length w + 0; rest := r; groups := [] |})
    as [p Hp].
  { cbn [rest]. exact (no_newline_word_rest _ _ _ _ Hl Hw). }
  cbn [rest groups] in Hp. rewrite Hp. reflexivity.
Qed.

Lemma question_match_direct (line : str) :
  no_newline line ->
  question_match line = Some <$> marker_rest (lit "Question") line.
Proof. apply marker_match. Qed.

Lemma answer_match_direct (line : str) :
  no_newline line ->
  answer_match line = Some <$> marker_rest (lit "Answer") line.
Proof. apply marker_match. Qed.

(** ** Trimming and ink *)

Lemma has_ink_app (a b : str) : has_ink (a ++ b) = has_ink a || has_ink b.
Proof. apply existsb_app. Qed.

Lemma has_ink_rev (s : str) : has_ink (rev s) = has_ink s.
Proof.
  induction s as [|c s IH]; [reflexivity|].
  cbn [rev]. rewrite has_ink_app, IH. cbn. rewrite orb_false_r.
  apply orb_comm.
Qed.

Lemma lstrip_ink (s : str) : has_ink (lstrip s) = has_ink s.
Proof.
  induction s as [|c s IH]; [reflexivity|].
  cbn. destruct (isspace c) eqn:E; cbn; [exact IH|].
  now rewrite E.
Qed.

Lemma strip_ink (s : str) : has_ink (strip s) = has_ink s.
Proof.
  unfold strip, rstrip.
  now rewrite has_ink_rev, lstrip_ink, has_ink_rev, lstrip_ink.
Qed.

(** What [lstrip] returns is empty or starts with ink. *)
Lemma lstrip_clean (s : str) : lstrip s = [] \/ has_ink (lstrip s) = true.
Proof.
  induction s as [|c s IH]; [now left|].
  cbn. destruct (isspace c) eqn:E; [exact IH|].
  right. cbn. now rewrite E.
Qed.

Lemma has_ink_nonempty (s : str) : has_ink s = true -> s <> [].
Proof. now destruct s. Qed.

Lemma strip_nonempty_ink (s : str) : strip s <> [] -> has_ink s = true.
Proof.
  intros H. rewrite <- strip_ink.
  unfold strip, rstrip in *.
  destruct (lstrip_clean (rev (lstrip s))) as [Hnil | Hink].
  - rewrite Hnil in H. now contradiction H.
  - now rewrite has_ink_rev.
Qed.

Lemma ink_strip_nonempty (s : str) : has_ink s = true -> strip s <> [].
Proof.
  intros H. apply has_ink_nonempty. now rewrite strip_ink.
Qed.

Lemma drop_while_isspace (s : str) : drop_while isspace s = lstrip s.
Proof. induction s as [|c s IH]; [reflexivity|]. cbn. now rewrite IH. Qed.

Lemma truthy_true (s : str) : truthy s = true <-> s <> [].
Proof. destruct s; cbn; split; congruence. Qed.

Lemma no_newline_lstrip (s : str) : no_newline s -> no_newline (lstrip s).
Proof. rewrite <- drop_while_isspace. apply no_newline_drop_while. Qed.

Lemma no_newline_rev (s : str) : no_newline s -> no_newline (rev s).
Proof. unfold no_newline. apply Forall_rev. Qed.

Lemma no_newline_strip (s : str) : no_newline s -> no_newline (strip s).
Proof.
  intros H. unfold strip, rstrip.
  now apply no_newline_rev, no_newline_lstrip, no_newline_rev, no_newline_lstrip.
Qed.

(** The pieces of [text.split] on the newline hold no newline. *)
Lemma split_newline_go (s acc : str) :
  no_newline acc ->
  Forall no_newline (split_go [newline] 0 acc s).
Proof.
  revert acc. induction s as [|c s IH]; intros acc Hacc; cbn [split_go].
  - constructor; [|constructor]. now apply no_newline_rev.
  - cbn [startswith length Nat.sub]. rewrite andb_true_r.
    destruct (eqc newline c) eqn:E.
    + constructor; [now apply no_newline_rev|]. apply IH. constructor.
    + apply IH. constructor; [|exact Hacc].
      apply eqc_false in E. congruence.
Qed.

Lemma split_newline_lines (text : str) :
  Forall no_newline (split [newline] text).
Proof. apply split_newline_go. constructor. Qed.

(** ** Q&A parser *)

Lemma marker_rest_clean (w line g : str) :
  marker_rest w line = Some g -> g = [] \/ has_ink g = true.
Proof.
  unfold marker_rest. destruct (word_rest marker_flags w line); [|discriminate].
  intros H. inversion H; subst. rewrite drop_while_isspace. apply lstrip_clean.
Qed.

Lemma flush_nonempty (st : parse_state) :
  parse_inv st ->
  Forall (fun p => question p <> [] /\ answer p <> []) (flush st).
Proof.
  intros (Hout & Hq & Ha). unfold flush.
  destruct (current_question st) as [q|]; [|exact Hout].
  destruct (current_answer st) as [a|]; [|exact Hout].
  destruct (truthy q && truthy a) eqn:E; [|exact Hout].
  apply andb_true_iff in E as [Eq Ea].
  apply truthy_true in Eq, Ea.
  apply Forall_app. split; [exact Hout|].
  constructor; [|constructor]. cbn [question answer].
  cbn in Hq, Ha. split; apply ink_strip_nonempty; tauto.
Qed.

Lemma parse_line_inv (st : parse_state) (raw : str) :
  no_newline raw -> parse_inv st -> parse_inv (parse_line st raw).
Proof.
  intros Hraw Hinv. unfold parse_line.
  pose proof (no_newline_strip raw Hraw) as Hline.
  destruct (truthy (strip raw)) eqn:Hne; cbn [negb]; [|exact Hinv].
  apply truthy_true in Hne.
  assert (Hink : has_ink (strip raw) = true).
  { rewrite strip_ink. now apply strip_nonempty_ink. }
  rewrite question_match_direct by exact Hline.
  destruct (marker_rest (lit "Question") (strip raw)) as [g|] eqn:Hq; cbn [fmap option_fmap option_map].
  { split; [|split]; cbn [qa_dict current_question current_answer opt_clean].
    - now apply flush_nonempty.
    - now apply marker_rest_clean in Hq.
    - exact I. }
  rewrite answer_match_direct by exact Hline.
  destruct Hinv as (Hout & Hcq & Hca).
  destruct (marker_rest (lit "Answer") (strip raw)) as [g|] eqn:Ha; cbn [fmap option_fmap option_map].
  { split; [|split]; cbn [qa_dict current_question current_answer opt_clean]; [exact Hout | exact Hcq |].
    now apply marker_rest_clean in Ha. }
  destruct (current_answer st) as [a|] eqn:Eca.
  { split; [|split]; cbn [qa_dict current_question current_answer opt_clean]; [exact Hout | exact Hcq |].
    right. rewrite !has_ink_app, Hink. now rewrite !orb_true_r. }
  destruct (truthy_opt (current_question st) && negb (truthy_opt None)).
  - split; [|split]; cbn [qa_dict current_question current_answer opt_clean]; [exact Hout | exact Hcq |]. now right.
  - split; [|split]; [exact Hout | exact Hcq |]. now rewrite Eca.
Qed.

Lemma parse_fold_inv (lines : list str) (st : parse_state) :
  Forall no_newline lines ->
  parse_inv st ->
  parse_inv (fold_left parse_line lines st).
Proof.
  revert st. induction lines as [|l lines IH]; intros st Hl Hinv; cbn.
  - exact Hinv.
  - inversion Hl; subst. apply IH; [assumption|].
    now apply parse_line_inv.
Qed.

Lemma parse_init_inv : parse_inv parse_init.
Proof. split; [constructor | split; exact I]. Qed.

(** Every pair emitted has a question and an answer that are not empty. *)
Lemma extract_pairs_nonempty (text : str) :
  Forall (fun p => question p <> [] /\ answer p <> [])
         (extract_questions_and_answers text).
Proof.
  unfold extract_questions_and_answers.
  destruct (negb (truthy text)); [constructor|].
  unfold parse_lines. apply flush_nonempty, parse_fold_inv.
  - apply split_newline_lines.
  - apply parse_init_inv.
Qed.

(** [split] undoes [join_lines]. *)
Lemma split_go_line (l rest acc : str) :
  no_newline l ->
  split_go [newline] 0 acc (l ++ newline :: rest)
  = rev (rev l ++ acc) :: split_go [newline] 0 [] rest.
Proof.
  revert acc. induction l as [|c l IH]; intros acc Hl; cbn [app split_go].
  - cbn [startswith length Nat.sub rev app].
    unfold eqc. now rewrite Ascii.eqb_refl.
  - apply no_newline_cons in Hl as [Hc Hl].
    cbn [startswith]. rewrite andb_true_r.
    assert (E : eqc newline c = false) by (apply eqc_false; congruence).
    rewrite E. rewrite IH by exact Hl.
    cbn [rev]. now rewrite <- app_assoc.
Qed.

Lemma split_go_last (l acc : str) :
  no_newline l ->
  split_go [newline] 0 acc l = [rev (rev l ++ acc)].
Proof.
  revert acc. induction l as [|c l IH]; intros acc Hl; cbn [split_go].
  - reflexivity.
  - apply no_newline_cons in Hl as [Hc Hl].
    cbn [startswith]. rewrite andb_true_r.
    assert (E : eqc newline c = false) by (apply eqc_false; congruence).
    rewrite E. rewrite IH by exact Hl.
    cbn [rev]. now rewrite <- app_assoc.
Qed.

Lemma split_join_lines (l : str) (ls : list str) :
  Forall no_newline (l :: ls) ->
  split [newline] (join_lines (l :: ls)) = l :: ls.
Proof.
  revert l. induction ls as [|l' ls IH]; intros l Hall.
  - inversion Hall; subst. cbn [join_lines]. unfold split.
    rewrite split_go_last by assumption.
    now rewrite app_nil_r, rev_involutive.
  - inversion Hall; subst.
    change (join_lines (l :: l' :: ls))
      with (l ++ newline :: join_lines (l' :: ls)).
    unfold split. rewrite split_go_line by assumption.
    rewrite app_nil_r, rev_involutive. f_equal.
    now apply IH.
Qed.

Lemma parse_line_blank (st : parse_state) : parse_line st [] = st.
Proof. reflexivity. Qed.

(** The parser on a text is the line loop on its lines. *)
Lemma extract_join_lines (ls : list str) :
  Forall no_newline ls ->
  extract_questions_and_answers (join_lines ls) = parse_lines ls.
Proof.
  intros Hall. unfold extract_questions_and_answers.
  destruct ls as [|l ls].
  - reflexivity.
  - destruct (truthy (join_lines (l :: ls))) eqn:E; cbn [negb].
    + now rewrite split_join_lines.
    + destruct l; [|destruct ls; discriminate].
      destruct ls; [reflexivity|discriminate].
Qed.

(** A line that is not a question marker leaves the pending question and
    the pairs emitted so far as they are. *)
Lemma parse_line_other (st : parse_state) (raw : str) :
  question_line raw = None ->
  current_question (parse_line st raw) = current_question st
  /\ qa_dict (parse_line st raw) = qa_dict st.
Proof.
  unfold question_line, parse_line.
  destruct (truthy (strip raw)); cbn [negb]; [|auto].
  intros ->.
  destruct (answer_match (strip raw)); [auto|].
  destruct (current_answer st); [auto|].
  destruct (truthy_opt (current_question st) && negb (truthy_opt None)); auto.
Qed.

Lemma parse_block_other (block : list str) (st : parse_state) :
  Forall (fun l => question_line l = None) block ->
  current_question (fold_left parse_line block st) = current_question st
  /\ qa_dict (fold_left parse_line block st) = qa_dict st.
Proof.
  revert st. induction block as [|l block IH]; intros st Hall; cbn [fold_left].
  - auto.
  - inversion Hall; subst.
    destruct (IH (parse_line st l)) as [Hq Hd]; [assumption|].
    destruct (parse_line_other st l) as [Hq' Hd']; [assumption|].
    split; congruence.
Qed.

(** A question marker line closes the pending pair and starts anew. *)
Lemma parse_line_question (st : parse_state) (raw : str) (g : option str) :
  question_line raw = Some g ->
  parse_line st raw
  = {| current_question := g; current_answer := None; qa_dict := flush st |}.
Proof.
  unfold question_line, parse_line.
  destruct (truthy (strip raw)); cbn [negb]; [|discriminate].
  now intros ->.
Qed.

Lemma flush_empty_question (st : parse_state) :
  current_question st = Some [] -> flush st = qa_dict st.
Proof.
  intros H. unfold flush. rewrite H.
  now destruct (current_answer st).
Qed.

(** A question marker without text, with the lines up to the next question
    marker, adds nothing to what the line loop returns. *)
Lemma parse_lines_empty_question (pre block rest : list str) (q : str) :
  question_line q = Some (Some []) ->
  Forall (fun l => question_line l = None) block ->
  (rest = [] \/ exists l rest', rest = l :: rest' /\ question_line l <> None) ->
  parse_lines (pre ++ q :: block ++ rest) = parse_lines (pre ++ rest).
Proof.
  intros Hq Hblock Hrest. unfold parse_lines.
  rewrite !fold_left_app. cbn [fold_left].
  set (st := fold_left parse_line pre parse_init).
  rewrite (parse_line_question st q _ Hq).
  set (st1 := {| current_question := Some []; current_answer := None;
                 qa_dict := flush st |}).
  rewrite fold_left_app.
  destruct (parse_block_other block st1 Hblock) as [Hcq Hout].
  set (st2 := fold_left parse_line block st1) in *.
  cbn [current_question qa_dict st1] in Hcq, Hout.
  destruct Hrest as [-> | (l & rest' & -> & Hl)].
  - cbn [fold_left]. rewrite (flush_empty_question st2 Hcq). exact Hout.
  - cbn [fold_left].
    destruct (question_line l) as [g|] eqn:El; [|now contradiction Hl].
    rewrite (parse_line_question st2 l g El).
    rewrite (parse_line_question st l g El).
    now rewrite (flush_empty_question st2 Hcq), Hout.
Qed.

(** C10: every pair that [extract_questions_and_answers] emits has a
    question and an answer that are not empty; in particular a question
    marker line with nothing after the marker contributes no pair, whatever
    follows it up to the next question marker: the parser returns the same
    pairs as on the text without those lines. *)
Theorem C10_pairs_nonempty :
  (forall (text : str) (p : qa_pair),
      In p (extract_questions_and_answers text) ->
      question p <> [] /\ answer p <> [])
  /\ (forall (pre block rest : list str) (q : str),
         Forall no_newline (pre ++ q :: block ++ rest) ->
         question_line q = Some (Some []) ->
         Forall (fun l => question_line l = None) block ->
         (rest = []
          \/ exists l rest', rest = l :: rest' /\ question_line l <> None) ->
         extract_questions_and_answers (join_lines (pre ++ q :: block ++ rest))
         = extract_questions_and_answers (join_lines (pre ++ rest))).
Proof.
  split.
  - intros text p Hin.
    pose proof (extract_pairs_nonempty text) as Hall.
    rewrite Forall_forall in Hall. apply Hall.
    apply list_elem_of_In. exact Hin.
  - intros pre block rest q Hall Hq Hblock Hrest.
    rewrite !extract_join_lines.
    + now apply parse_lines_empty_question.
    + apply Forall_app in Hall as [Hpre Hall].
      inversion Hall as [|? ? _ Hall']; subst.
      apply Forall_app in Hall' as [_ Hrest'].
      apply Forall_app. auto.
    + exact Hall.
Qed.

Lemma C10_witness :
  (In {| question := lit "a?"; answer := lit "b" |}
      (extract_questions_and_answers
         (joined ["Question 1: a?"; "Answer 1: b"]%string))
   /\ lit "a?" <> [] /\ lit "b" <> [])
  /\ extract_questions_and_answers
       (joined ["Question 1: a?"; "Answer 1: b"; "Question 2";
                "c?"; "Answer 2: d"; "Question 3: e?"; "Answer 3: f"]%string)
     = extract_questions_and_answers
         (joined ["Question 1: a?"; "Answer 1: b";
                  "Question 3: e?"; "Answer 3: f"]%string).
Proof.
  split.
  - assert (Hin : In {| question := lit "a?"; answer := lit "b" |}
                     (extract_questions_and_answers
                        (joined ["Question 1: a?"; "Answer 1: b"]%string))).
    { vm_compute. left. reflexivity. }
    split; [exact Hin|].
    exact (proj1 C10_pairs_nonempty _ _ Hin).
  - apply (proj2 C10_pairs_nonempty
             [lit "Question 1: a?"; lit "Answer 1: b"]
             [lit "c?"; lit "Answer 2: d"]
             [lit "Question 3: e?"; lit "Answer 3: f"]
             (lit "Question 2")).
    + repeat constructor; vm_compute; discriminate.
    + vm_compute. reflexivity.
    + repeat constructor.
    + right. eexists. eexists. split; [reflexivity|].
      vm_compute. discriminate.
Defined.

(** C1, as stated, fails: on the text of the claim the question marker
    line carries no text, so the parser emits no pair. *)
Lemma C1_counterexample :
  ~ (extract_questions_and_answers
       (joined ["Question 1"; "What is H2O?"; "Answer 1"; "Water";
                "It is a compound."]%string)
     = [{| question := lit "What is H2O?";
           answer := lit "Water It is a compound." |}]).
Proof. vm_compute. discriminate. Qed.

(** C1 (amended): on the text of the claim the parser returns no pair,
    because the question is only what follows the marker on its own line;
    with the question on the marker line it returns the one pair of the
    claim; and a line that is no marker, read while an answer is pending,
    is appended to that answer after a single blank. *)
Theorem C1_continuation_lines :
  extract_questions_and_answers
    (joined ["Question 1"; "What is H2O?"; "Answer 1"; "Water";
             "It is a compound."]%string)
  = []
  /\ extract_questions_and_answers
       (joined ["Question 1: What is H2O?"; "Answer 1"; "Water";
                "It is a compound."]%string)
     = [{| question := lit "What is H2O?";
           answer := lit "Water It is a compound." |}]
  /\ (forall (st : parse_state) (raw a : str),
         strip raw <> [] ->
         question_match (strip raw) = None ->
         answer_match (strip raw) = None ->
         current_answer st = Some a ->
         parse_line st raw
         = {| current_question := current_question st;
              current_answer := Some (a ++ lit " " ++ strip raw);
              qa_dict := qa_dict st |}).
Proof.
  split; [vm_compute; reflexivity|].
  split; [vm_compute; reflexivity|].
  intros st raw a Hne Hq Ha Hca. unfold parse_line.
  apply truthy_true in Hne. rewrite Hne, Hq, Ha, Hca. reflexivity.
Qed.

Lemma C1_witness :
  parse_line
    {| current_question := Some (lit "What is H2O?");
       current_answer := Some (lit "Water"); qa_dict := [] |}
    (lit "  It is a compound. ")
  = {| current_question := Some (lit "What is H2O?");
       current_answer := Some (lit "Water It is a compound.");
       qa_dict := [] |}.
Proof.
  apply (proj2 (proj2 C1_continuation_lines)
           {| current_question := Some (lit "What is H2O?");
              current_answer := Some (lit "Water"); qa_dict := [] |}
           (lit "  It is a compound. ") (lit "Water")).
  - vm_compute. discriminate.
  - vm_compute. reflexivity.
  - vm_compute. reflexivity.
  - reflexivity.
Defined.

(** ** Turn extraction *)

Lemma eqc_sym (a b : ascii) : eqc a b = eqc b a.
Proof. apply Ascii.eqb_sym. Qed.

(** Without [IGNORECASE] a literal word is a plain prefix. *)
Lemma word_rest_exact (w s : str) :
  word_rest assistant_flags w s
  = if startswith w s then Some (drop (length w) s) else None.
Proof.
  revert s. induction w as [|a w IH]; intros s; cbn.
  - now destruct s.
  - destruct s as [|c s]; [reflexivity|]. cbn.
    rewrite (eqc_sym c a). destruct (eqc a c); cbn; [apply IH | reflexivity].
Qed.

Lemma startswith_drop (w s : str) :
  startswith w s = true -> s = w ++ drop (length w) s.
Proof.
  revert s. induction w as [|a w IH]; intros s H; cbn in *.
  - now destruct s.
  - destruct s as [|c s]; [discriminate|].
    apply andb_true_iff in H as [Hc Hw].
    apply eqc_true in Hc. subst c. cbn. f_equal. now apply IH.
Qed.

(** The look-ahead of [assistant_pattern]. *)
Lemma run_ahead_stop (st : mstate) :
  run assistant_flags
      (Ahead (Alt (word system_marker) (Alt (word user_marker) Eos))) st Some
  = if at_stop (rest st) then Some st else None.
Proof.
  destruct st as [p s g].
  change (run assistant_flags
              (Ahead (Alt (word system_marker) (Alt (word user_marker) Eos)))
              {| pos := p; rest := s; groups := g |} Some)
    with (match
             match run assistant_flags (word system_marker)
                       {| pos := p; rest := s; groups := g |} Some with
             | Some x => Some x
             | None =>
                 match run assistant_flags (word user_marker)
                           {| pos := p; rest := s; groups := g |} Some with
                 | Some x => Some x
                 | None =>
                     run assistant_flags Eos
                         {| pos := p; rest := s; groups := g |} Some
                 end
             end
           with
           | Some st' => Some {| pos := p; rest := s; groups := groups st' |}
           | None => None
           end).
  rewrite !run_word, !word_rest_exact. cbn [rest pos groups].
  unfold at_stop.
  destruct (startswith system_marker s); [reflexivity|].
  destruct (startswith user_marker s); [reflexivity|].
  cbn [orb run rest].
  destruct s as [|c [|c' s']]; try reflexivity.
  now destruct (eqc c newline).
Qed.

(** The lazy run of group 1 ends at the first place where the look-ahead
    holds. *)
Lemma star_lazy_stop (F : nat -> str -> mstate) (s : str) (p : nat) :
  star_lazy assistant_flags CDot p s
            (fun q t => if at_stop t then Some (F q t) else None)
  = Some (F (p + length (re_span s)) (drop (length (re_span s)) s)).
Proof.
  revert p. induction s as [|c s IH]; intros p.
  - cbn. now rewrite Nat.add_0_r.
  - cbn [star_lazy re_span].
    destruct (at_stop (c :: s)) eqn:E.
    + cbn. now rewrite Nat.add_0_r.
    + cbn [accepts assistant_flags DOTALL orb]. rewrite IH.
      cbn [length drop]. do 2 f_equal. lia.
Qed.

Lemma take_re_span (s : str) : take (length (re_span s)) s = re_span s.
Proof.
  induction s as [|c s IH]; [reflexivity|].
  cbn [re_span]. destruct (at_stop (c :: s)); [reflexivity|].
  cbn. now rewrite IH.
Qed.

(** One attempt of [assistant_pattern]. *)
Lemma exec_assistant (p : nat) (s : str) :
  exec assistant_flags assistant_pattern p s
  = if startswith assistant_marker s
    then
      let r := drop (length assistant_marker) s in
      Some {| pos := length assistant_marker + p + length (re_span r);
              rest := drop (length (re_span r)) r;
              groups := [(1, re_span r)] |}
    else None.
Proof.
  unfold exec.
  change (run assistant_flags assistant_pattern
              {| pos := p; rest := s; groups := [] |} Some)
    with (run assistant_flags (word assistant_marker)
              {| pos := p; rest := s; groups := [] |}
              (fun st1 =>
                 star_lazy assistant_flags CDot (pos st1) (rest st1)
                   (fun q t =>
                      run assistant_flags
                          (Ahead (Alt (word system_marker)
                                      (Alt (word user_marker) Eos)))
                          {| pos := q; rest := t;
                             groups := (1, take (q - pos st1) (rest st1))
                                         :: groups st1 |} Some))).
  rewrite run_word, word_rest_exact. cbn [rest pos groups].
  destruct (startswith assistant_marker s); [|reflexivity].
  cbv zeta. set (r := drop (length assistant_marker) s).
  set (p1 := length assistant_marker + p).
  rewrite (star_lazy_ext assistant_flags CDot r p1 _
             (fun q t =>
                if at_stop t
                then Some {| pos := q; rest := t;
                             groups := [(1, take (q - p1) r)] |}
                else None))
    by (intros q t; now rewrite run_ahead_stop).
  rewrite (star_lazy_stop
             (fun q t => {| pos := q; rest := t;
                            groups := [(1, take (q - p1) r)] |})).
  do 3 f_equal. replace (p1 + length (re_span r) - p1)
    with (length (re_span r)) by lia.
  now rewrite take_re_span.
Qed.

(** [findall] on [assistant_pattern] is the direct scan. *)
Lemma findall_go_assistant (s : str) (skip p : nat) :
  findall_go assistant_flags assistant_pattern skip p s
  = assistant_matches_go skip s.
Proof.
  revert skip p. induction s as [|c s IH]; intros skip p.
  - destruct skip; [|reflexivity].
    cbn [findall_go assistant_matches_go]. rewrite exec_assistant.
    reflexivity.
  - destruct skip as [|n]; cbn [findall_go assistant_matches_go].
    + rewrite exec_assistant.
      destruct (startswith assistant_marker (c :: s)); cbv zeta.
      * cbn [group groups group_lookup Nat.eqb default pos].
        f_equal. rewrite IH. f_equal. lia.
      * apply IH.
    + apply IH.
Qed.

Lemma findall_assistant (s : str) :
  findall assistant_flags assistant_pattern s = assistant_matches_go 0 s.
Proof. apply findall_go_assistant. Qed.

(** The look-ahead against the stops of the specification's wording. *)
Lemma at_stop_markers (s : str) :
  at_stop s
  = existsb (fun m => startswith m s) system_or_user_marker
    || match s with
       | [] => true
       | [c] => eqc c newline
       | _ => false
       end.
Proof.
  unfold at_stop, system_or_user_marker. cbn [existsb].
  now rewrite orb_false_r.
Qed.

(** The span of the pattern is the span up to a system or user marker or
    the end, except that it leaves out a newline that ends the text. *)
Lemma re_span_cases (s : str) :
  re_span s = span_until system_or_user_marker s
  \/ (s = re_span s ++ [newline]
      /\ span_until system_or_user_marker s = s).
Proof.
  induction s as [|c s IH].
  - now left.
  - cbn [re_span span_until]. rewrite at_stop_markers.
    destruct (existsb (fun m => startswith m (c :: s)) system_or_user_marker);
      [now left|].
    cbn [orb].
    destruct s as [|c' s'].
    + destruct (eqc c newline) eqn:E.
      * right. apply eqc_true in E. subst. split; reflexivity.
      * now left.
    + destruct IH as [IH | [IH1 IH2]].
      * left. now rewrite IH.
      * right. split; [cbn [app]; now rewrite <- IH1 | now rewrite IH2].
Qed.

Lemma rstrip_app_space (x : str) (c : ascii) :
  isspace c = true -> rstrip (x ++ [c]) = rstrip x.
Proof.
  intros Hc. unfold rstrip. rewrite rev_app_distr. cbn. now rewrite Hc.
Qed.

Lemma strip_app_space (x : str) (c : ascii) :
  isspace c = true -> strip (x ++ [c]) = strip x.
Proof.
  intros Hc. unfold strip.
  induction x as [|a x IH].
  - cbn. now rewrite Hc.
  - cbn [app lstrip]. destruct (isspace a); [exact IH|].
    change (a :: x ++ [c]) with ((a :: x) ++ [c]).
    now apply rstrip_app_space.
Qed.

Lemma turn_spans_go_short (stops : list str) (s : str) (skip : nat) :
  length s <= skip -> turn_spans_go stops skip s = [].
Proof.
  revert skip. induction s as [|c s IH]; intros skip H; [reflexivity|].
  cbn [turn_spans_go]. cbn in H.
  destruct skip as [|n]; [lia|]. apply IH. lia.
Qed.

Lemma assistant_matches_go_newline (s : str) (skip : nat) :
  length s = skip -> assistant_matches_go skip (s ++ [newline]) = [].
Proof.
  revert skip. induction s as [|c s IH]; intros skip H; cbn in H; subst skip.
  - reflexivity.
  - cbn [app assistant_matches_go]. now apply IH.
Qed.

Lemma cleaned_cons (x : str) (l : list str) :
  cleaned (x :: l)
  = (if truthy (strip x) then [strip x] else []) ++ cleaned l.
Proof. unfold cleaned. cbn. now destruct (truthy (strip x)). Qed.

(** After trimming, the matches of the pattern are the spans of the
    specification's wording with a system or user marker as stops. *)
Lemma cleaned_assistant_matches (s : str) (skip : nat) :
  cleaned (assistant_matches_go skip s)
  = cleaned (turn_spans_go system_or_user_marker skip s).
Proof.
  revert skip. induction s as [|c s IH]; intros skip.
  - destruct skip; reflexivity.
  - destruct skip as [|n]; cbn [assistant_matches_go turn_spans_go];
      [|apply IH].
    destruct (startswith assistant_marker (c :: s)) eqn:E; [|apply IH].
    cbv zeta. rewrite !cleaned_cons.
    pose proof (startswith_drop _ _ E) as Hs.
    set (r := drop (length assistant_marker) (c :: s)) in *.
    destruct (re_span_cases r) as [H | [H1 H2]].
    + rewrite H. f_equal. apply IH.
    + rewrite H2.
      remember (re_span r) as sp eqn:Hsp.
      assert (Hstrip : strip r = strip sp)
        by (rewrite H1; now apply strip_app_space).
      assert (Hs' : s = (lit "|assistant|>" ++ sp) ++ [newline]).
      { rewrite H1 in Hs.
        change assistant_marker with ("<"%char :: lit "|assistant|>") in Hs.
        cbn [app] in Hs. inversion Hs. now rewrite <- app_assoc. }
      assert (Hlen : length r = S (length sp))
        by (rewrite H1, length_app; cbn [length]; lia).
      rewrite Hstrip. f_equal.
      rewrite turn_spans_go_short.
      * rewrite Hs'. rewrite assistant_matches_go_newline; [reflexivity|].
        rewrite length_app. reflexivity.
      * rewrite Hs', Hlen, !length_app.
        change (length assistant_marker) with 13.
        change (length (lit "|assistant|>")) with 12. cbn [length]. lia.
Qed.

Lemma extract_assistant_first_turn (text : str) :
  extract_assistant_responses text = first_turn system_or_user_marker text.
Proof.
  unfold extract_assistant_responses, first_turn, turn_spans.
  rewrite findall_assistant.
  change (List.filter truthy
            (List.map strip (turn_spans_go system_or_user_marker 0 text)))
    with (cleaned (turn_spans_go system_or_user_marker 0 text)).
  rewrite cleaned_assistant_matches.
  now destruct (cleaned _).
Qed.

Lemma turn_spans_go_absent (stops : list str) (s : str) (skip : nat) :
  contains assistant_marker s = false -> turn_spans_go stops skip s = [].
Proof.
  revert skip. induction s as [|c s IH]; intros skip H; [reflexivity|].
  cbn [contains] in H. apply orb_false_iff in H as [H1 H2].
  cbn [turn_spans_go]. destruct skip; [rewrite H1|]; now apply IH.
Qed.

(** C6, as stated, fails: a second assistant marker does not end the span
    of the first one. *)
Lemma C6_counterexample :
  extract_assistant_responses (lit "<|assistant|>A<|assistant|>B")
  = Some (lit "A<|assistant|>B")
  /\ first_turn any_role_marker (lit "<|assistant|>A<|assistant|>B")
     = Some (lit "A")
  /\ ~ (extract_assistant_responses (lit "<|assistant|>A<|assistant|>B")
        = first_turn any_role_marker (lit "<|assistant|>A<|assistant|>B")).
Proof.
  split; [vm_compute; reflexivity|].
  split; [vm_compute; reflexivity|].
  vm_compute. discriminate.
Qed.

(** C6 (amended): [extract_assistant_responses] returns the first trimmed
    non-empty span lying between an assistant marker and the next system
    or user marker or the end of the string (an assistant marker does not
    end a span), across line boundaries; it returns none when the text has
    no assistant marker or all spans are empty; on the transcript of the
    claim it returns [A]. *)
Theorem C6_turn_extraction :
  (forall text : str,
      extract_assistant_responses text
      = first_turn system_or_user_marker text)
  /\ (forall text : str,
         contains assistant_marker text = false ->
         extract_assistant_responses text = None)
  /\ (forall text : str,
         extract_assistant_responses text = None
         <-> Forall (fun sp => strip sp = [])
                    (turn_spans system_or_user_marker text))
  /\ extract_assistant_responses
       (joined ["<|assistant|>line one"; "line two "; "<|user|>B"]%string)
     = Some (joined ["line one"; "line two"]%string)
  /\ extract_assistant_responses (lit "<|assistant|>A<|user|>B<|assistant|>C")
     = Some (lit "A").
Proof.
  split; [exact extract_assistant_first_turn|].
  split.
  { intros text H. rewrite extract_assistant_first_turn.
    unfold first_turn, turn_spans. now rewrite turn_spans_go_absent. }
  split.
  { intros text. rewrite extract_assistant_first_turn. unfold first_turn.
    induction (turn_spans system_or_user_marker text) as [|sp l IH].
    - cbn. split; [constructor | reflexivity].
    - cbn [List.map List.filter].
      destruct (strip sp) as [|c t] eqn:E; cbn [truthy].
      + rewrite IH. split; intros H.
        * now constructor.
        * now inversion H.
      + cbn. split; [discriminate|]. intros H. inversion H; subst.
        congruence. }
  split; vm_compute; reflexivity.
Qed.

Lemma C6_witness :
  contains assistant_marker (lit "<|user|>B<|system|>C") = false
  /\ extract_assistant_responses (lit "<|user|>B<|system|>C") = None.
Proof.
  split; [reflexivity|].
  apply (proj1 (proj2 C6_turn_extraction) (lit "<|user|>B<|system|>C")).
  reflexivity.
Defined.

(** ** Deck synchronisation *)

Lemma set_index_twice (i j : Z) (d : qa_data_t) :
  set_last_anki_card_index i (set_last_anki_card_index j d)
  = set_last_anki_card_index i d.
Proof. reflexivity. Qed.

Lemma add_notes_nil (deck : deck_t) : add_notes [] deck = deck.
Proof. destruct deck. unfold add_notes. cbn. now rewrite app_nil_r. Qed.

(** The loop adds one note per record, in order, counts them, and leaves
    the index of the last one in the ledger. *)
Lemma add_cards_loop_spec (new : list qa_record) (i n : Z)
      (deck : deck_t) (d : qa_data_t) :
  add_cards_loop new i n deck d
  = ((n + Z.of_nat (length new))%Z,
     add_notes (List.map note_of new) deck,
     match new with
     | [] => d
     | _ :: _ =>
         set_last_anki_card_index (i + Z.of_nat (length new) - 1)%Z d
     end).
Proof.
  revert i n deck d. induction new as [|r new IH]; intros i n deck d.
  - cbn [add_cards_loop length List.map]. rewrite add_notes_nil.
    do 2 f_equal. lia.
  - cbn [add_cards_loop]. rewrite IH. f_equal; [f_equal|].
    + cbn [length]. lia.
    + unfold add_notes, add_note. cbn. now rewrite <- app_assoc.
    + destruct new as [|r' new'].
      * f_equal. cbn [length]. lia.
      * rewrite set_index_twice. f_equal. cbn [length]. lia.
Qed.

Lemma add_new_cards_spec (deck : deck_t) (d : qa_data_t) :
  let new := py_slice_from (qa_pairs d)
                           (last_anki_card_index (metadata d) + 1) in
  add_new_cards_to_deck deck d
  = (Z.of_nat (length new),
     add_notes (List.map note_of new) deck,
     match new with
     | [] => d
     | _ :: _ =>
         set_last_anki_card_index
           (last_anki_card_index (metadata d) + Z.of_nat (length new))%Z d
     end).
Proof.
  cbv zeta. unfold add_new_cards_to_deck. rewrite add_cards_loop_spec.
  f_equal.
  destruct (py_slice_from _ _); [reflexivity|]. f_equal. lia.
Qed.

(** From a watermark of at least [-1] the slice is the records after the
    watermark. *)
Lemma py_slice_from_nonneg {A : Type} (l : list A) (start : Z) :
  (0 <= start)%Z -> py_slice_from l start = drop (Z.to_nat start) l.
Proof.
  intros H. unfold py_slice_from.
  now replace (start <? 0)%Z with false by (symmetry; apply Z.ltb_ge; lia).
Qed.

Lemma py_slice_from_length {A : Type} (l : list A) (start : Z) :
  (0 <= start)%Z ->
  Z.of_nat (length (py_slice_from l start))
  = Z.max 0 (Z.of_nat (length l) - start).
Proof.
  intros H. rewrite py_slice_from_nonneg by exact H.
  rewrite length_drop. lia.
Qed.

Lemma py_slice_from_end {A : Type} (l : list A) (start : Z) :
  (Z.of_nat (length l) <= start)%Z -> py_slice_from l start = [].
Proof.
  intros H. rewrite py_slice_from_nonneg by lia.
  apply drop_ge. lia.
Qed.

Lemma synced_spec (deck : deck_t) (d : qa_data_t) :
  synced deck d
  = match py_slice_from (qa_pairs d)
                        (last_anki_card_index (metadata d) + 1) with
    | [] => d
    | new =>
        set_last_anki_card_index
          (last_anki_card_index (metadata d) + Z.of_nat (length new))%Z d
    end.
Proof.
  unfold synced. pose proof (add_new_cards_spec deck d) as H.
  cbv zeta in H. rewrite H. cbn [snd].
  now destruct (py_slice_from _ _).
Qed.

(** The watermark never moves back. *)
Lemma synced_monotone (deck : deck_t) (d : qa_data_t) :
  (last_anki_card_index (metadata d)
   <= last_anki_card_index (metadata (synced deck d)))%Z.
Proof.
  rewrite synced_spec.
  destruct (py_slice_from _ _) as [|r new]; [lia|].
  cbn [set_last_anki_card_index metadata last_anki_card_index]. lia.
Qed.

(** From a watermark of at least [-1], a call that adds cards leaves the
    index of the last record as the watermark. *)
Lemma synced_last_index (deck : deck_t) (d : qa_data_t) :
  (-1 <= last_anki_card_index (metadata d))%Z ->
  (0 < fst (fst (add_new_cards_to_deck deck d)))%Z ->
  last_anki_card_index (metadata (synced deck d))
  = (Z.of_nat (length (qa_pairs d)) - 1)%Z.
Proof.
  intros Hwm Hn. rewrite synced_spec.
  pose proof (add_new_cards_spec deck d) as H. cbv zeta in H.
  rewrite H in Hn. cbn [fst] in Hn.
  pose proof (py_slice_from_length (qa_pairs d)
                (last_anki_card_index (metadata d) + 1)) as Hlen.
  destruct (py_slice_from _ _) as [|r new]; [cbn in Hn; lia|].
  cbn [set_last_anki_card_index metadata last_anki_card_index]. lia.
Qed.

Lemma synced_qa_pairs (deck : deck_t) (d : qa_data_t) :
  qa_pairs (synced deck d) = qa_pairs d.
Proof. rewrite synced_spec. now destruct (py_slice_from _ _). Qed.

Lemma synced_watermark_ok (deck : deck_t) (d : qa_data_t) :
  watermark_ok d -> watermark_ok (synced deck d).
Proof.
  intros Hok. unfold watermark_ok in *.
  rewrite synced_qa_pairs. rewrite synced_spec.
  pose proof (py_slice_from_length (qa_pairs d)
                (last_anki_card_index (metadata d) + 1)) as Hlen.
  destruct (py_slice_from _ _) as [|r new]; [exact Hok|].
  cbn [set_last_anki_card_index metadata last_anki_card_index].
  cbn [length] in *. lia.
Qed.

Lemma ledger_step_watermark_ok (d d' : qa_data_t) :
  ledger_step d d' -> watermark_ok d -> watermark_ok d'.
Proof.
  intros Hstep Hok. destruct Hstep; try exact Hok.
  - unfold watermark_ok in *. cbn [extend_qa_pairs metadata qa_pairs].
    rewrite length_app. lia.
  - now apply synced_watermark_ok.
Qed.

Lemma reachable_watermark_ok (d : qa_data_t) :
  reachable d -> watermark_ok d.
Proof.
  induction 1 as [|d d' _ IH Hstep].
  - unfold watermark_ok. cbn. lia.
  - exact (ledger_step_watermark_ok d d' Hstep IH).
Qed.

(** A second call right after a call finds nothing to add. *)
Lemma add_new_cards_twice (deck : deck_t) (d : qa_data_t) :
  (-1 <= last_anki_card_index (metadata d))%Z ->
  let '(_, deck1, d1) := add_new_cards_to_deck deck d in
  add_new_cards_to_deck deck1 d1 = (0%Z, deck1, d1).
Proof.
  intros Hwm.
  pose proof (add_new_cards_spec deck d) as H. cbv zeta in H. rewrite H.
  pose proof (py_slice_from_length (qa_pairs d)
                (last_anki_card_index (metadata d) + 1)) as Hlen.
  destruct (py_slice_from (qa_pairs d) _) as [|r new] eqn:Hnew.
  - pose proof (add_new_cards_spec (add_notes (List.map note_of []) deck) d)
      as H2.
    cbv zeta in H2. rewrite H2, Hnew. cbn [List.map length].
    now rewrite !add_notes_nil.
  - set (deck1 := add_notes _ deck). set (d1 := set_last_anki_card_index _ d).
    pose proof (add_new_cards_spec deck1 d1) as H2. cbv zeta in H2.
    rewrite H2.
    rewrite py_slice_from_end.
    + cbn [List.map length]. now rewrite add_notes_nil.
    + unfold d1.
      cbn [set_last_anki_card_index metadata last_anki_card_index qa_pairs].
      cbn [length] in *. lia.
Qed.

(** C3, as stated, fails on a ledger whose watermark is below [-1]: with
    two records and the watermark at [-3] the first call adds both records
    and leaves the watermark at [-1], so the second call adds both again. *)
Lemma C3_counterexample :
  ~ (let '(_, deck1, d1) :=
       add_new_cards_to_deck
         sample_deck
         (sample_ledger 9 (-3) [sample_record 1; sample_record 2]) in
     let '(n2, deck2, _) := add_new_cards_to_deck deck1 d1 in
     n2 = 0%Z /\ notes deck2 = notes deck1).
Proof. vm_compute. intros [H _]. discriminate H. Qed.

(** C3 (amended): for every deck and every ledger whose watermark is at
    least [-1] (as in every ledger that the script writes), a call of
    [add_new_cards_to_deck] right after another, with nothing appended in
    between, returns 0 and leaves the deck and the ledger as they were. *)
Theorem C3_sync_idempotent (deck : deck_t) (d : qa_data_t) :
  (-1 <= last_anki_card_index (metadata d))%Z ->
  let '(_, deck1, d1) := add_new_cards_to_deck deck d in
  let '(n2, deck2, d2) := add_new_cards_to_deck deck1 d1 in
  n2 = 0%Z /\ deck2 = deck1 /\ notes deck2 = notes deck1 /\ d2 = d1.
Proof.
  intros Hwm. pose proof (add_new_cards_twice deck d Hwm) as H.
  destruct (add_new_cards_to_deck deck d) as [[n1 deck1] d1].
  rewrite H. auto.
Qed.

Lemma C3_witness :
  let '(_, deck1, d1) :=
    add_new_cards_to_deck
      sample_deck
      (sample_ledger 9 (-1) [sample_record 1; sample_record 2]) in
  let '(n2, deck2, d2) := add_new_cards_to_deck deck1 d1 in
  n2 = 0%Z /\ deck2 = deck1 /\ notes deck2 = notes deck1 /\ d2 = d1.
Proof.
  apply (C3_sync_idempotent
           sample_deck
           (sample_ledger 9 (-1) [sample_record 1; sample_record 2])).
  cbn. lia.
Defined.

(** ** The orchestrator *)

Section OrchestratorFacts.
Context {json_text : Type}.
Variable json_dump : qa_data_t -> json_text.
Variable json_load : json_text -> option qa_data_t.
Variable isoformat : nat -> str.
Variable generate_questions : nat -> str -> option str.
Variable random_deck_id : Z.

Local Abbreviation run_state := (run_state json_text).
Local Abbreviation world := (world json_text).

Lemma sync_deck_qa_data (st : run_state) :
  qa_data (snd (sync_deck st)) = synced (deck st) (qa_data st).
Proof.
  unfold sync_deck, synced.
  now destruct (add_new_cards_to_deck (deck st) (qa_data st)) as [[n d] q].
Qed.

Lemma save_progress_qa_data (st : run_state) :
  qa_data (save_progress json_dump isoformat st)
  = set_last_update (isoformat (clock (outside st))) (qa_data st).
Proof. reflexivity. Qed.

Lemma sync_deck_reachable (st : run_state) :
  reachable (qa_data st) -> reachable (qa_data (snd (sync_deck st))).
Proof.
  intros H. rewrite sync_deck_qa_data.
  eapply reach_step; [exact H | constructor].
Qed.

Lemma save_progress_reachable (st : run_state) :
  reachable (qa_data st) ->
  reachable (qa_data (save_progress json_dump isoformat st)).
Proof.
  intros H. rewrite save_progress_qa_data.
  eapply reach_step; [exact H | constructor].
Qed.

Lemma update_reachable (f : qa_data_t -> qa_data_t) (st : run_state) :
  (forall d, ledger_step d (f d)) ->
  reachable (qa_data st) -> reachable (qa_data (update_qa_data f st)).
Proof. intros Hf H. eapply reach_step; [exact H | apply Hf]. Qed.

Lemma process_part_reachable (page_num : Z) (i : nat) (part : str)
      (st : run_state) :
  reachable (qa_data st) ->
  reachable
    (qa_data
       (snd (process_part json_dump isoformat generate_questions
                          page_num i part st))).
Proof.
  intros H. unfold process_part, call_generate.
  destruct (generate_questions (calls (outside st)) part) as [result|];
    [|exact H].
  destruct (extract_assistant_responses result) as [response|]; [|exact H].
  destruct (truthy response); [|exact H].
  destruct (extract_questions_and_answers response) as [|p ps]; [exact H|].
  match goal with
  | |- context [sync_deck ?s] =>
      pose proof (sync_deck_reachable s) as Hsync;
      destruct (sync_deck s) as [n st5]
  end.
  cbn [snd] in *. apply save_progress_reachable, Hsync.
  repeat (apply update_reachable; [intros; constructor|]).
  exact H.
Qed.

Lemma process_parts_reachable (page_num : Z) (parts : list str) (i : nat)
      (valid : bool) (st : run_state) :
  reachable (qa_data st) ->
  reachable
    (qa_data
       (snd (process_parts json_dump isoformat generate_questions
                           page_num i parts valid st))).
Proof.
  revert i valid st.
  induction parts as [|part parts IH]; intros i valid st H;
    cbn [process_parts].
  - exact H.
  - pose proof (process_part_reachable page_num i part st H) as Hpart.
    destruct (process_part _ _ _ _ _ _ _) as [v st'].
    apply IH. exact Hpart.
Qed.

Lemma process_page_reachable (page_num : Z) (page : page_t)
      (st : run_state) :
  reachable (qa_data st) ->
  reachable
    (qa_data
       (snd (process_page json_dump isoformat generate_questions
                          page_num page st))).
Proof.
  intros H. unfold process_page.
  destruct page as [text| |]; [|exact H|exact H].
  destruct (truthy text); cbn [negb]; [|exact H].
  match goal with
  | |- context [process_parts _ _ _ ?p ?i ?ps ?v ?s] =>
      pose proof (process_parts_reachable p ps i v s H) as Hparts;
      destruct (process_parts json_dump isoformat generate_questions
                              p i ps v s) as [valid st1]
  end.
  cbn [snd] in *.
  apply save_progress_reachable.
  apply update_reachable; [intros; constructor|].
  destruct valid; [|exact Hparts].
  apply save_progress_reachable.
  apply update_reachable; [intros; constructor|]. exact Hparts.
Qed.

Lemma process_pages_reachable (pages : list page_t) (page_num : Z)
      (st : run_state) :
  reachable (qa_data st) ->
  reachable
    (qa_data
       (snd (process_pages json_dump isoformat generate_questions
                           page_num pages st))).
Proof.
  revert page_num st.
  induction pages as [|page pages IH]; intros page_num st H;
    cbn [process_pages].
  - exact H.
  - pose proof (process_page_reachable page_num page st H) as Hpage.
    destruct (process_page _ _ _ _ _ _) as [[|] st'].
    + apply IH. exact Hpage.
    + exact Hpage.
Qed.

(** [main] keeps the ledger among the reachable ones, whatever the PDF
    and the model do. *)
Lemma main_reachable (pdf : option (list page_t)) (w : world) :
  reachable (fst (load_or_create_qa_file json_dump json_load qa_file w)) ->
  reachable
    (qa_data
       (snd (main json_dump json_load isoformat generate_questions
                  random_deck_id pdf w))).
Proof.
  intros H. unfold main.
  destruct (load_or_create_qa_file json_dump json_load qa_file w)
    as [qa_data0 w0].
  cbn [fst] in H.
  match goal with
  | |- context [sync_deck ?s] =>
      pose proof (sync_deck_reachable s H) as Hsync;
      destruct (sync_deck s) as [n st1]
  end.
  cbn [snd] in Hsync.
  destruct pdf as [pages|]; [|now apply save_progress_reachable].
  destruct (_ >=? _)%Z; [exact Hsync|].
  match goal with
  | |- context [process_pages _ _ _ ?p ?ps ?s] =>
      pose proof (process_pages_reachable ps p s Hsync) as Hpages;
      destruct (process_pages json_dump isoformat generate_questions
                              p ps s) as [[|] st']
  end.
  - exact Hpages.
  - now apply save_progress_reachable.
Qed.

End OrchestratorFacts.

(** C5: in every ledger that the script reaches the watermark is below the
    number of records (and at least [-1]), and [main] keeps the ledger
    among those; appending records, as [main] does with the pairs of a
    part, leaves the watermark as it is; [add_new_cards_to_deck] never
    moves it back, and when it adds cards in a reachable ledger it adds the
    records after the watermark and sets the watermark to the index of the
    last record. *)
Theorem C5_watermark_invariant :
  (forall d : qa_data_t,
      reachable d ->
      (-1 <= last_anki_card_index (metadata d)
       < Z.of_nat (length (qa_pairs d)))%Z)
  /\ (forall (json_text : Type) (json_dump : qa_data_t -> json_text)
             (json_load : json_text -> option qa_data_t)
             (isoformat : nat -> str)
             (generate_questions : nat -> str -> option str)
             (random_deck_id : Z) (pdf : option (list page_t))
             (w : world json_text),
         reachable (fst (load_or_create_qa_file json_dump json_load qa_file w)) ->
         reachable
           (qa_data
              (snd (main json_dump json_load isoformat generate_questions
                         random_deck_id pdf w))))
  /\ (forall (rs : list qa_record) (p n : Z) (d : qa_data_t),
         let d' :=
           set_total_questions n
             (set_last_processed_page p (extend_qa_pairs rs d)) in
         qa_pairs d' = qa_pairs d ++ rs
         /\ last_anki_card_index (metadata d')
            = last_anki_card_index (metadata d))
  /\ (forall (deck : deck_t) (d : qa_data_t),
         (last_anki_card_index (metadata d)
          <= last_anki_card_index (metadata (synced deck d)))%Z)
  /\ (forall (deck : deck_t) (d : qa_data_t),
         reachable d ->
         (0 < fst (fst (add_new_cards_to_deck deck d)))%Z ->
         snd (fst (add_new_cards_to_deck deck d))
         = add_notes
             (List.map note_of
                (drop (Z.to_nat (last_anki_card_index (metadata d) + 1))
                      (qa_pairs d)))
             deck
         /\ last_anki_card_index (metadata (synced deck d))
            = (Z.of_nat (length (qa_pairs d)) - 1)%Z).
Proof.
  split; [exact reachable_watermark_ok|].
  split; [intros; now apply main_reachable|].
  split; [intros; split; reflexivity|].
  split; [exact synced_monotone|].
  intros deck d Hreach Hn.
  pose proof (reachable_watermark_ok d Hreach) as Hok.
  split.
  - pose proof (add_new_cards_spec deck d) as H. cbv zeta in H.
    rewrite H. cbn [fst snd].
    rewrite py_slice_from_nonneg by (unfold watermark_ok in Hok; lia).
    reflexivity.
  - apply synced_last_index; [|exact Hn]. unfold watermark_ok in Hok. lia.
Qed.

(** ** The ledger file *)



Section LedgerFileFacts.
Context {json_text : Type}.
Variable json_dump : qa_data_t -> json_text.
Variable json_load : json_text -> option qa_data_t.
Variable isoformat : nat -> str.
Variable generate_questions : nat -> str -> option str.
Variable random_deck_id : Z.

(** What [save_qa_data] leaves on disk: the stamped ledger under the file
    name, and no temporary file. *)
Lemma save_qa_data_fs (data : qa_data_t) (filename : string)
      (w : world json_text) :
  let data' := set_last_update (isoformat (clock w)) data in
  save_qa_data json_dump isoformat data filename w
  = (data',
     {| fs := <[filename := json_dump data']>
                (delete (filename +:+ ".tmp")%string
                        (<[(filename +:+ ".tmp")%string :=
                             json_dump data']> (fs w)));
        apkg := apkg w; clock := S (clock w); calls := calls w;
        log := log w ++ [EvWriteLedger data'] |}).
Proof.
  cbv zeta. unfold save_qa_data, os_replace, write_file, tick, emit.
  cbn [fs apkg clock calls log]. rewrite lookup_insert_eq. reflexivity.
Qed.



(** C2: with a ledger file that holds last processed page 9, watermark
    [-1] and three records, and a PDF of ten pages, [main] returns without
    reading a page or calling the model: the only call to a collaborator
    is the write of the deck package, the text files are left as they
    were, and the initial synchronisation adds exactly the three records to
    the deck. *)
Theorem C2_resume_at_end (w : world json_text) (pages : list page_t)
        (t : json_text) (data : qa_data_t) :
  fs w !! qa_file = Some t ->
  json_load t = Some data ->
  last_processed_page (metadata data) = 9%Z ->
  last_anki_card_index (metadata data) = (-1)%Z ->
  length (qa_pairs data) = 3 ->
  length pages = 10 ->
  fst (fst (add_new_cards_to_deck (create_or_load_deck random_deck_id) data))
  = 3%Z
  /\ exists st : run_state json_text,
      main json_dump json_load isoformat generate_questions random_deck_id
           (Some pages) w
      = (Returned, st)
      /\ notes (deck st) = List.map note_of (qa_pairs data)
      /\ length (notes (deck st)) = 3
      /\ qa_data st = set_last_anki_card_index 2 data
      /\ log (outside st) = log w ++ [EvWriteDeck (deck st)]
      /\ calls (outside st) = calls w
      /\ fs (outside st) = fs w
      /\ apkg (outside st) = Some (deck st).
Proof.
  intros Hfile Hload Hpage Hwm Hrecs Hpages.
  pose proof (add_new_cards_spec (create_or_load_deck random_deck_id) data)
    as Hsync.
  cbv zeta in Hsync. rewrite Hwm in Hsync.
  rewrite py_slice_from_nonneg in Hsync by lia.
  change (drop (Z.to_nat (-1 + 1)) (qa_pairs data)) with (qa_pairs data)
    in Hsync.
  destruct (qa_pairs data) as [|r1 [|r2 [|r3 [|r4 rs]]]] eqn:Hqs;
    try discriminate Hrecs.
  change (Z.of_nat (length [r1; r2; r3])) with 3%Z in Hsync.
  change (-1 + 3)%Z with 2%Z in Hsync.
  split; [now rewrite Hsync|].
  unfold main, load_or_create_qa_file. rewrite Hfile, Hload.
  unfold sync_deck. cbn [qa_data deck outside]. rewrite Hsync.
  change (3 >? 0)%Z with true. cbv iota.
  cbn [qa_data set_last_anki_card_index metadata last_processed_page].
  rewrite Hpage, Hpages.
  change (9 + 1 >=? Z.of_nat 10)%Z with true. cbv iota.
  eexists. split; [reflexivity|].
  cbn [deck qa_data outside notes add_notes create_or_load_deck app].
  repeat (split; [reflexivity|]). reflexivity.
Qed.

End LedgerFileFacts.

(** ** The theorems at sample data *)



Lemma C2_witness :
  fst (fst (add_new_cards_to_deck (create_or_load_deck 1) resume_ledger))
  = 3%Z
  /\ exists st : run_state (option qa_data_t),
      main sample_dump sample_load sample_clock sample_model 1
           (Some (replicate 10 PageNone))
           (sample_world {[ qa_file := Some resume_ledger ]})
      = (Returned, st)
      /\ notes (deck st) = List.map note_of (qa_pairs resume_ledger)
      /\ length (notes (deck st)) = 3
      /\ qa_data st = set_last_anki_card_index 2 resume_ledger
      /\ log (outside st)
         = log (sample_world {[ qa_file := Some resume_ledger ]})
           ++ [EvWriteDeck (deck st)]
      /\ calls (outside st)
         = calls (sample_world {[ qa_file := Some resume_ledger ]})
      /\ fs (outside st)
         = fs (sample_world {[ qa_file := Some resume_ledger ]})
      /\ apkg (outside st) = Some (deck st).
Proof.
  apply (C2_resume_at_end sample_dump sample_load sample_clock sample_model 1
           (sample_world {[ qa_file := Some resume_ledger ]})
           (replicate 10 PageNone) (Some resume_ledger) resume_ledger).
  - vm_compute. reflexivity.
  - reflexivity.
  - reflexivity.
  - reflexivity.
  - reflexivity.
  - reflexivity.
Defined.

Lemma C5_witness :
  (-1 <= last_anki_card_index
           (metadata (synced sample_deck
                        (extend_qa_pairs [sample_record 10] initial_data)))
   < Z.of_nat
       (length
          (qa_pairs (synced sample_deck
                       (extend_qa_pairs [sample_record 10] initial_data)))))%Z
  /\ last_anki_card_index
       (metadata (synced sample_deck
                    (extend_qa_pairs [sample_record 10] initial_data)))
     = 0%Z.
Proof.
  assert (Hreach : reachable (extend_qa_pairs [sample_record 10] initial_data)).
  { eapply reach_step; [apply reach_initial | apply step_extend]. }
  split.
  - apply (proj1 C5_watermark_invariant).
    eapply reach_step; [exact Hreach | apply step_sync].
  - apply (proj2 (proj2 (proj2 (proj2 C5_watermark_invariant)))
                  sample_deck _ Hreach).
    vm_compute. reflexivity.
Defined.

(* ===================================================================== *)
(** * Further properties of the script *)
(* ===================================================================== *)

(** ** Trimming *)

Lemma lstrip_cases (s : str) :
  lstrip s = [] \/ exists c t, lstrip s = c :: t /\ isspace c = false.
Proof.
  induction s as [|c s IH]; [now left|].
  cbn [lstrip]. destruct (isspace c) eqn:E; [exact IH|].
  right. now exists c, s.
Qed.

Lemma lstrip_idempotent (s : str) : lstrip (lstrip s) = lstrip s.
Proof.
  destruct (lstrip_cases s) as [-> | (c & t & -> & Hc)]; [reflexivity|].
  cbn [lstrip]. now rewrite Hc.
Qed.

Lemma rstrip_idempotent (s : str) : rstrip (rstrip s) = rstrip s.
Proof.
  unfold rstrip. now rewrite rev_involutive, lstrip_idempotent.
Qed.

Lemma lstrip_strip (s : str) : lstrip (strip s) = strip s.
Proof.
  unfold strip.
  destruct (lstrip_cases s) as [-> | (c & t & -> & Hc)]; [reflexivity|].
  change (c :: t) with ([] ++ c :: t).
  rewrite (rstrip_app_nonspace [] t c Hc). cbn [app lstrip].
  now rewrite Hc.
Qed.

Lemma strip_idempotent (s : str) : strip (strip s) = strip s.
Proof.
  unfold strip at 1. rewrite lstrip_strip.
  unfold strip. apply rstrip_idempotent.
Qed.

(** ** [split] and [join] *)

Lemma split_go_nonempty (sep : str) (s acc : str) (skip : nat) :
  split_go sep skip acc s <> [].
Proof.
  revert skip acc. induction s as [|c s IH]; intros skip acc; cbn [split_go].
  - discriminate.
  - destruct skip; [|apply IH].
    destruct (startswith sep (c :: s)); [discriminate | apply IH].
Qed.

Lemma split_nonempty (sep s : str) : split sep s <> [].
Proof. apply split_go_nonempty. Qed.

Lemma py_join_cons (sep p : str) (ps : list str) :
  ps <> [] -> py_join sep (p :: ps) = p ++ sep ++ py_join sep ps.
Proof. now destruct ps. Qed.

Lemma drop_sep_tail (sep : str) (c : ascii) (s : str) :
  sep <> [] ->
  drop (length sep) (c :: s) = drop (length sep - 1) s.
Proof.
  destruct sep as [|a sep]; [congruence|]. intros _.
  cbn [length]. replace (S (length sep) - 1) with (length sep) by lia.
  reflexivity.
Qed.

Lemma join_split_go (sep : str) (s acc : str) (skip : nat) :
  sep <> [] ->
  py_join sep (split_go sep skip acc s) = rev acc ++ drop skip s.
Proof.
  intros Hsep. revert skip acc.
  induction s as [|c s IH]; intros skip acc; cbn [split_go].
  - cbn [py_join]. now rewrite drop_nil, app_nil_r.
  - destruct skip as [|n]; [|apply IH].
    destruct (startswith sep (c :: s)) eqn:E.
    + rewrite py_join_cons by apply split_go_nonempty.
      rewrite IH. cbn [rev app drop].
      rewrite <- (drop_sep_tail sep c s Hsep).
      now rewrite <- (startswith_drop _ _ E).
    + rewrite IH. cbn [rev drop]. now rewrite <- app_assoc.
Qed.

(** Joining the pieces of a split with the separator gives the text. *)
Lemma join_split (sep s : str) :
  sep <> [] -> py_join sep (split sep s) = s.
Proof. intros H. unfold split. now rewrite join_split_go. Qed.

Lemma concat_with_delimiter (ss : list str) :
  ss <> [] ->
  concat (List.map with_delimiter ss) = py_join (lit ". ") ss ++ lit ". ".
Proof.
  induction ss as [|s ss IH]; [congruence|]. intros _.
  destruct ss as [|s' ss'].
  - cbn. now rewrite app_nil_r.
  - rewrite py_join_cons by discriminate.
    change (concat (List.map with_delimiter (s :: s' :: ss')))
      with (with_delimiter s
            ++ concat (List.map with_delimiter (s' :: ss'))).
    rewrite IH by discriminate.
    unfold with_delimiter. now rewrite <- !app_assoc.
Qed.

(** ** More on the chunker *)

(** The parts are the trimmed buffers, and the buffers, one after the
    other, are the sentences with their delimiters. *)
Lemma chunk_fold_buffers (limit : Z) (l : list str) (st : chunk_state)
      (bs : list str) :
  parts st = List.map strip bs ->
  exists bs',
    chunk_finish (fold_left (chunk_step limit) l st) = List.map strip bs'
    /\ concat bs'
       = concat bs ++ current_part st ++ concat (List.map with_delimiter l).
Proof.
  revert st bs. induction l as [|s l IH]; intros st bs Hparts.
  - cbn [fold_left List.map concat]. unfold chunk_finish.
    destruct (current_part st) as [|c cur] eqn:Hcur; cbn [truthy].
    + exists bs. split; [exact Hparts|]. now rewrite !app_nil_r.
    + exists (bs ++ [c :: cur]). split.
      * rewrite Hparts, map_app. reflexivity.
      * rewrite concat_app. cbn [concat]. now rewrite !app_nil_r.
  - cbn [fold_left]. unfold chunk_step at 2.
    destruct (len (current_part st) + len s + 1 <=? limit)%Z.
    + destruct (IH {| parts := parts st;
                      current_part := current_part st ++ s ++ lit ". " |} bs)
        as (bs' & Hfin & Hcat); [exact Hparts|].
      exists bs'. split; [exact Hfin|].
      rewrite Hcat. cbn [current_part List.map concat].
      unfold with_delimiter. now rewrite <- !app_assoc.
    + destruct (IH {| parts := parts st ++ [strip (current_part st)];
                      current_part := s ++ lit ". " |}
                   (bs ++ [current_part st]))
        as (bs' & Hfin & Hcat).
      { cbn [parts]. rewrite Hparts, map_app. reflexivity. }
      exists bs'. split; [exact Hfin|].
      rewrite Hcat, concat_app. cbn [current_part List.map concat].
      unfold with_delimiter. rewrite app_nil_r. now rewrite <- !app_assoc.
Qed.

(** X1: the chunker loses no text and keeps its order: the parts are the
    trimmed forms of consecutive pieces of the text followed by the
    delimiter. *)
Theorem X1_chunker_keeps_text (text : str) (limit : Z) :
  exists buffers : list str,
    break_down_page_into_parts text limit = List.map strip buffers
    /\ concat buffers = text ++ lit ". ".
Proof.
  unfold break_down_page_into_parts, chunk_sentences.
  destruct (chunk_fold_buffers limit (split (lit ". ") text)
              {| parts := []; current_part := [] |} [])
    as (bs & Hfin & Hcat); [reflexivity|].
  exists bs. split; [exact Hfin|].
  rewrite Hcat. cbn [concat current_part app].
  rewrite concat_with_delimiter by apply split_nonempty.
  now rewrite join_split by discriminate.
Qed.

Lemma chunk_step_buffer (limit : Z) (st : chunk_state) (s : str) :
  exists b, current_part (chunk_step limit st s) = b ++ lit ". ".
Proof.
  unfold chunk_step.
  destruct (_ <=? _)%Z; cbn [current_part].
  - exists (current_part st ++ s). now rewrite <- app_assoc.
  - now exists s.
Qed.

(** Once the buffer holds a sentence, every part closed from then on is
    not empty. *)
Lemma chunk_tail_nonempty (limit : Z) (l : list str) (st : chunk_state)
      (b : str) :
  current_part st = b ++ lit ". " ->
  exists (new : list str) (b' : str),
    chunk_finish (fold_left (chunk_step limit) l st)
    = parts st ++ new ++ [lstrip b' ++ lit "."]
    /\ Forall (fun p => p <> []) new.
Proof.
  revert st b. induction l as [|s l IH]; intros st b Hcur.
  - cbn [fold_left]. unfold chunk_finish. rewrite Hcur.
    replace (truthy (b ++ lit ". ")) with true by now destruct b.
    exists [], b. rewrite strip_sentence. split; [reflexivity | constructor].
  - cbn [fold_left].
    destruct (chunk_step_buffer limit st s) as [b1 Hb1].
    destruct (IH _ _ Hb1) as (new & b' & Hfin & Hne).
    rewrite Hfin. unfold chunk_step.
    destruct (_ <=? _)%Z; cbn [parts].
    + exists new, b'. split; [reflexivity | exact Hne].
    + exists (strip (current_part st) :: new), b'. split.
      * now rewrite <- app_assoc.
      * constructor; [|exact Hne].
        rewrite Hcur, strip_sentence. now destruct (lstrip b).
Qed.

(** X2: the chunker never returns an empty list, and its last part ends
    with a period, whatever the text and the limit. *)
Theorem X2_chunker_last_part (text : str) (limit : Z) :
  exists (pre : list str) (b : str),
    break_down_page_into_parts text limit = pre ++ [lstrip b ++ lit "."].
Proof.
  unfold break_down_page_into_parts, chunk_sentences.
  destruct (split (lit ". ") text) as [|s0 rest] eqn:Hsplit.
  - now apply split_nonempty in Hsplit.
  - cbn [fold_left].
    destruct (chunk_step_buffer limit {| parts := []; current_part := [] |} s0)
      as [b0 Hb0].
    destruct (chunk_tail_nonempty limit rest _ _ Hb0) as (new & b' & Hfin & _).
    rewrite Hfin. eexists. exists b'. now rewrite app_assoc.
Qed.

(** X3: the chunker emits an empty part exactly when the first sentence
    of the text does not fit the limit with its period (the empty buffer
    is then closed as a part). *)
Theorem X3_chunker_empty_part (text : str) (limit : Z) (s0 : str)
        (rest : list str) :
  split (lit ". ") text = s0 :: rest ->
  In [] (break_down_page_into_parts text limit) <-> (limit < len s0 + 1)%Z.
Proof.
  intros Hsplit. unfold break_down_page_into_parts, chunk_sentences.
  rewrite Hsplit. cbn [fold_left].
  destruct (chunk_step_buffer limit {| parts := []; current_part := [] |} s0)
    as [b0 Hb0].
  destruct (chunk_tail_nonempty limit rest _ _ Hb0) as (new & b' & Hfin & Hne).
  rewrite Hfin. clear Hfin Hb0.
  assert (Hnew : ~ In [] (new ++ [lstrip b' ++ lit "."])).
  { intros Hin. apply in_app_or in Hin as [Hin | [Hin | []]].
    - rewrite Forall_forall in Hne.
      apply (Hne [] ); [now apply list_elem_of_In | reflexivity].
    - now destruct (lstrip b'). }
  unfold chunk_step. cbn [current_part parts].
  change (len []) with 0%Z.
  destruct (0 + len s0 + 1 <=? limit)%Z eqn:Hfit; cbn [parts app].
  - apply Z.leb_le in Hfit. split; [intros Hin; now apply Hnew in Hin | lia].
  - apply Z.leb_gt in Hfit. split; [lia | intros _; now left].
Qed.

Lemma X3_witness :
  In [] (break_down_page_into_parts (lit "abcdef. gh") 5) <-> (5 < 6 + 1)%Z.
Proof.
  apply (X3_chunker_empty_part (lit "abcdef. gh") 5 (lit "abcdef") [lit "gh"]).
  reflexivity.
Defined.

(** X4: every part that the chunker emits is trimmed: trimming it again
    changes nothing. *)
Theorem X4_chunker_parts_trimmed (text : str) (limit : Z) (p : str) :
  In p (break_down_page_into_parts text limit) -> strip p = p.
Proof.
  intros Hin.
  unfold break_down_page_into_parts, chunk_sentences in Hin.
  destruct (chunk_fold_buffers limit (split (lit ". ") text)
              {| parts := []; current_part := [] |} [])
    as (bs & Hparts & _); [reflexivity|].
  rewrite Hparts in Hin. apply in_map_iff in Hin as (b & <- & _).
  apply strip_idempotent.
Qed.

Lemma X4_witness :
  In (lit "One.") (break_down_page_into_parts (lit " One.  Two ") 6)
  /\ strip (lit "One.") = lit "One.".
Proof.
  assert (Hin : In (lit "One.")
                   (break_down_page_into_parts (lit " One.  Two ") 6)).
  { vm_compute. left. reflexivity. }
  split; [exact Hin | exact (X4_chunker_parts_trimmed _ _ _ Hin)].
Defined.

(** ** More on turn extraction *)

Lemma startswith_app (m x y : str) :
  startswith m x = true -> startswith m (x ++ y) = true.
Proof.
  revert x. induction m as [|a m IH]; intros x H; [reflexivity|].
  destruct x as [|c x]; [discriminate|]. cbn in *.
  apply andb_true_iff in H as [H1 H2]. rewrite H1. now apply IH.
Qed.

Lemma contains_app_l (m x y : str) :
  contains m x = true -> contains m (x ++ y) = true.
Proof.
  induction x as [|c x IH]; intros H.
  - cbn [contains] in H. rewrite orb_false_r in H.
    apply (startswith_app m [] y) in H. cbn [app] in *.
    destruct y; cbn [contains]; now rewrite H.
  - cbn [contains app] in *. apply orb_true_iff in H as [H | H].
    + apply (startswith_app m (c :: x) y) in H. cbn [app] in H.
      now rewrite H.
    + rewrite IH by exact H. apply orb_true_r.
Qed.

Lemma contains_app_r (m x y : str) :
  contains m y = true -> contains m (x ++ y) = true.
Proof.
  intros H. induction x as [|c x IH]; [exact H|].
  cbn [contains app]. rewrite IH. apply orb_true_r.
Qed.

Lemma lstrip_suffix (s : str) : exists pre, s = pre ++ lstrip s.
Proof.
  induction s as [|c s [pre IH]]; [now exists []|].
  cbn [lstrip]. destruct (isspace c).
  - exists (c :: pre). cbn [app]. now f_equal.
  - now exists [].
Qed.

Lemma rstrip_prefix (s : str) : exists post, s = rstrip s ++ post.
Proof.
  unfold rstrip. destruct (lstrip_suffix (rev s)) as [pre H].
  exists (rev pre). rewrite <- rev_app_distr, <- H.
  now rewrite rev_involutive.
Qed.

Lemma contains_strip (m s : str) :
  contains m (strip s) = true -> contains m s = true.
Proof.
  intros H. unfold strip in H.
  destruct (rstrip_prefix (lstrip s)) as [post Hpost].
  destruct (lstrip_suffix s) as [pre Hpre].
  rewrite Hpre. apply contains_app_r.
  rewrite Hpost. now apply contains_app_l.
Qed.

Lemma span_until_prefix (stops : list str) (s : str) :
  exists rest, s = span_until stops s ++ rest.
Proof.
  induction s as [|c s [rest IH]]; cbn [span_until].
  - destruct (existsb _ stops); now exists [].
  - destruct (existsb _ stops); [now exists (c :: s)|].
    exists rest. cbn [app]. now f_equal.
Qed.

(** No stop marker occurs inside a span. *)
Lemma span_until_clear (stops : list str) (m s : str) :
  In m stops -> m <> [] -> contains m (span_until stops s) = false.
Proof.
  intros Hin Hm. induction s as [|c s IH]; cbn [span_until].
  - destruct (existsb _ stops); destruct m; cbn; congruence.
  - destruct (existsb (fun m0 => startswith m0 (c :: s)) stops) eqn:E.
    + destruct m; cbn; congruence.
    + cbn [contains]. rewrite IH, orb_false_r.
      destruct (startswith m (c :: span_until stops s)) eqn:Es; [|reflexivity].
      destruct (span_until_prefix stops s) as [rest Hrest].
      apply (startswith_app _ _ rest) in Es. cbn [app] in Es.
      rewrite <- Hrest in Es.
      assert (Hex : existsb (fun m0 => startswith m0 (c :: s)) stops = true).
      { apply existsb_exists. exists m. auto. }
      congruence.
Qed.

Lemma turn_spans_go_spans (stops : list str) (s : str) (skip : nat) :
  Forall (fun sp => exists x, sp = span_until stops x)
         (turn_spans_go stops skip s).
Proof.
  revert skip. induction s as [|c s IH]; intros skip; cbn [turn_spans_go].
  - constructor.
  - destruct skip; [|apply IH].
    destruct (startswith assistant_marker (c :: s)); [|apply IH].
    constructor; [eauto | apply IH].
Qed.

Lemma head_filter_in {A : Type} (f : A -> bool) (l : list A) (x : A) :
  head (List.filter f l) = Some x -> In x l /\ f x = true.
Proof.
  intros H. apply filter_In.
  destruct (List.filter f l) as [|y t]; [discriminate|].
  cbn in H. inversion H; subst. now left.
Qed.

(** X5: the turn that [extract_assistant_responses] returns is not empty,
    is trimmed, holds no system or user marker, and the transcript holds
    an assistant marker. *)
Theorem X5_turn_is_clean (text r : str) :
  extract_assistant_responses text = Some r ->
  r <> []
  /\ strip r = r
  /\ contains system_marker r = false
  /\ contains user_marker r = false
  /\ contains assistant_marker text = true.
Proof.
  intros H. rewrite extract_assistant_first_turn in H.
  assert (Hmark : contains assistant_marker text = true).
  { destruct (contains assistant_marker text) eqn:E; [reflexivity|].
    unfold first_turn, turn_spans in H.
    rewrite turn_spans_go_absent in H by exact E. discriminate. }
  unfold first_turn in H. apply head_filter_in in H as [Hin Hne].
  apply in_map_iff in Hin as (sp & <- & Hsp).
  pose proof (turn_spans_go_spans system_or_user_marker text 0) as Hall.
  rewrite Forall_forall in Hall.
  destruct (Hall sp) as [x ->]; [now apply list_elem_of_In|].
  split; [now apply truthy_true|].
  split; [apply strip_idempotent|].
  assert (Hclear : forall m, In m system_or_user_marker -> m <> [] ->
            contains m (strip (span_until system_or_user_marker x)) = false).
  { intros m Hm Hnil.
    destruct (contains m (strip _)) eqn:E; [|reflexivity].
    apply contains_strip in E.
    now rewrite span_until_clear in E. }
  split; [|split; [|exact Hmark]].
  - apply Hclear; [now left | discriminate].
  - apply Hclear; [right; now left | discriminate].
Qed.

Lemma X5_witness :
  extract_assistant_responses
    (lit "<|user|>q<|assistant|> Question 1: a <|user|>more")
  = Some (lit "Question 1: a")
  /\ lit "Question 1: a" <> []
  /\ strip (lit "Question 1: a") = lit "Question 1: a"
  /\ contains system_marker (lit "Question 1: a") = false
  /\ contains user_marker (lit "Question 1: a") = false
  /\ contains assistant_marker
       (lit "<|user|>q<|assistant|> Question 1: a <|user|>more") = true.
Proof.
  assert (H : extract_assistant_responses
                (lit "<|user|>q<|assistant|> Question 1: a <|user|>more")
              = Some (lit "Question 1: a")) by (vm_compute; reflexivity).
  split; [exact H | exact (X5_turn_is_clean _ _ H)].
Defined.

(** ** More on the Q&A parser *)



(** The parser on a text is the line loop on the pieces of the text. *)
Lemma extract_as_lines (text : str) :
  extract_questions_and_answers text = parse_lines (split [newline] text).
Proof.
  unfold extract_questions_and_answers.
  destruct text as [|c text]; reflexivity.
Qed.

(** The pairs emitted so far, plus one for a pending question. *)
Lemma parse_line_count (st : parse_state) (raw : str) :
  length (qa_dict (parse_line st raw))
  + pending (parse_line st raw)
  <= length (qa_dict st) + pending st
     + (if is_question_line raw then 1 else 0).
Proof.
  unfold is_question_line, pending.
  destruct (question_line raw) as [g|] eqn:Hq.
  - rewrite (parse_line_question st raw g Hq).
    cbn [qa_dict current_question]. unfold flush.
    destruct (current_question st) as [q|]; [|destruct g; lia].
    destruct (current_answer st) as [a|]; [|destruct g; lia].
    destruct (truthy q && truthy a); [|destruct g; lia].
    rewrite length_app. cbn [length]. destruct g; lia.
  - destruct (parse_line_other st raw Hq) as [-> ->]. lia.
Qed.

Lemma flush_count (st : parse_state) :
  length (flush st)
  <= length (qa_dict st) + pending st.
Proof.
  unfold flush, pending.
  destruct (current_question st) as [q|]; [|lia].
  destruct (current_answer st) as [a|]; [|lia].
  destruct (truthy q && truthy a); [|lia].
  rewrite length_app. cbn [length]. lia.
Qed.

Lemma parse_fold_count (lines : list str) (st : parse_state) :
  length (flush (fold_left parse_line lines st))
  <= length (qa_dict st) + pending st
     + length (List.filter is_question_line lines).
Proof.
  revert st. induction lines as [|l lines IH]; intros st; cbn [fold_left].
  - cbn [List.filter length]. pose proof (flush_count st). lia.
  - specialize (IH (parse_line st l)).
    pose proof (parse_line_count st l) as Hl.
    cbn [List.filter]. destruct (is_question_line l); cbn [length]; lia.
Qed.

(** X7: the parser emits at most one pair per question marker line of the
    text; a text without a question marker line gives no pair. *)
Theorem X7_pairs_bounded (text : str) :
  length (extract_questions_and_answers text)
  <= length (List.filter is_question_line (split [newline] text)).
Proof.
  rewrite extract_as_lines. unfold parse_lines.
  pose proof (parse_fold_count (split [newline] text) parse_init) as H.
  unfold pending in H.
  cbn [parse_init qa_dict current_question length] in H. lia.
Qed.

(** Where the questions come from: marker lines of [all]. *)
Lemma parse_fold_source (all lines : list str) (st : parse_state) :
  (forall l, In l lines -> In l all) ->
  (forall p, In p (qa_dict st) ->
             exists l q, In l all /\ question_line l = Some (Some q)
                         /\ question p = strip q) ->
  (forall q, current_question st = Some q ->
             exists l, In l all /\ question_line l = Some (Some q)) ->
  forall p, In p (flush (fold_left parse_line lines st)) ->
            exists l q, In l all /\ question_line l = Some (Some q)
                        /\ question p = strip q.
Proof.
  assert (Hflush : forall st0 : parse_state,
    (forall p, In p (qa_dict st0) ->
               exists l q, In l all /\ question_line l = Some (Some q)
                           /\ question p = strip q) ->
    (forall q, current_question st0 = Some q ->
               exists l, In l all /\ question_line l = Some (Some q)) ->
    forall p, In p (flush st0) ->
              exists l q, In l all /\ question_line l = Some (Some q)
                          /\ question p = strip q).
  { intros st0 Hout Hcq p Hp. unfold flush in Hp.
    destruct (current_question st0) as [q|]; [|now apply Hout].
    destruct (current_answer st0) as [a|]; [|now apply Hout].
    destruct (truthy q && truthy a); [|now apply Hout].
    apply in_app_or in Hp as [Hp | [<- | []]]; [now apply Hout|].
    destruct (Hcq q eq_refl) as (l & Hl & Hq). now exists l, q. }
  revert st. induction lines as [|l lines IH]; intros st Hsub Hout Hcq;
    cbn [fold_left].
  - now apply Hflush.
  - apply IH.
    + intros x Hx. apply Hsub. now right.
    + destruct (question_line l) as [g|] eqn:Hq.
      * rewrite (parse_line_question st l g Hq). cbn [qa_dict].
        now apply Hflush.
      * destruct (parse_line_other st l Hq) as [_ ->]. exact Hout.
    + destruct (question_line l) as [g|] eqn:Hq.
      * rewrite (parse_line_question st l g Hq). cbn [current_question].
        intros q ->. exists l. split; [apply Hsub; now left | exact Hq].
      * destruct (parse_line_other st l Hq) as [-> _]. exact Hcq.
Qed.

(** X8: the question of every pair that the parser emits is the trimmed
    text that follows the marker on a question marker line of the input. *)
Theorem X8_question_source (text : str) (p : qa_pair) :
  In p (extract_questions_and_answers text) ->
  exists l q, In l (split [newline] text)
              /\ question_line l = Some (Some q)
              /\ question p = strip q.
Proof.
  rewrite extract_as_lines. unfold parse_lines.
  apply parse_fold_source.
  - auto.
  - intros p0 [].
  - intros q Hq. discriminate Hq.
Qed.

Lemma X8_witness :
  In {| question := lit "a?"; answer := lit "b" |}
     (extract_questions_and_answers
        (joined ["intro"; "Question 1: a?"; "Answer 1: b"]%string))
  /\ exists l q,
      In l (split [newline]
                  (joined ["intro"; "Question 1: a?"; "Answer 1: b"]%string))
      /\ question_line l = Some (Some q)
      /\ question {| question := lit "a?"; answer := lit "b" |} = strip q.
Proof.
  assert (Hin : In {| question := lit "a?"; answer := lit "b" |}
                   (extract_questions_and_answers
                      (joined ["intro"; "Question 1: a?"; "Answer 1: b"]%string))).
  { vm_compute. left. reflexivity. }
  split; [exact Hin | exact (X8_question_source _ _ Hin)].
Defined.

Lemma parse_line_strip (st : parse_state) (raw : str) :
  parse_line st (strip raw) = parse_line st raw.
Proof. unfold parse_line. now rewrite strip_idempotent. Qed.

Lemma parse_line_skip (st : parse_state) (raw : str) :
  truthy (strip raw) = false -> parse_line st raw = st.
Proof. intros H. unfold parse_line. now rewrite H. Qed.

Lemma parse_fold_trimmed (lines : list str) (st : parse_state) :
  fold_left parse_line (List.filter truthy (List.map strip lines)) st
  = fold_left parse_line lines st.
Proof.
  revert st. induction lines as [|l lines IH]; intros st; [reflexivity|].
  cbn [List.map List.filter fold_left].
  destruct (truthy (strip l)) eqn:E.
  - cbn [fold_left]. now rewrite parse_line_strip, IH.
  - now rewrite IH, (parse_line_skip st l E).
Qed.

(** X9: blank lines and the whitespace around a line do not matter to the
    parser: it returns what the line loop returns on the trimmed non-blank
    lines of the text. *)
Theorem X9_parser_ignores_blanks (text : str) :
  extract_questions_and_answers text
  = parse_lines (List.filter truthy (List.map strip (split [newline] text))).
Proof.
  rewrite extract_as_lines. unfold parse_lines.
  now rewrite parse_fold_trimmed.
Qed.

(** ** More on the deck and the ledger file *)

Lemma py_slice_from_suffix {A : Type} (l : list A) (start : Z) :
  exists pre, l = pre ++ py_slice_from l start.
Proof.
  unfold py_slice_from. destruct (start <? 0)%Z; eexists;
    symmetry; apply take_drop.
Qed.

(** X10: [add_new_cards_to_deck] returns the number of notes it added;
    the notes are those of a final segment of the ledger's records, in
    order, placed after the notes that the deck had; the deck keeps its
    identifier and name, and the ledger keeps its records and all metadata
    but [last_anki_card_index]. *)
Theorem X10_sync_effect (deck : deck_t) (d : qa_data_t) :
  let '(n, deck', d') := add_new_cards_to_deck deck d in
  (exists pre added,
      qa_pairs d = pre ++ added
      /\ notes deck' = notes deck ++ List.map note_of added
      /\ n = Z.of_nat (length added))
  /\ deck_id deck' = deck_id deck
  /\ deck_name deck' = deck_name deck
  /\ qa_pairs d' = qa_pairs d
  /\ set_last_anki_card_index (last_anki_card_index (metadata d)) d' = d.
Proof.
  pose proof (add_new_cards_spec deck d) as H. cbv zeta in H. rewrite H.
  destruct (py_slice_from_suffix
              (qa_pairs d) (last_anki_card_index (metadata d) + 1))
    as [pre Hpre].
  split.
  { exists pre, (py_slice_from (qa_pairs d)
                   (last_anki_card_index (metadata d) + 1)).
    split; [exact Hpre|]. split; reflexivity. }
  destruct d as [[lpp tpp tq lu wm] qs].
  cbn [metadata qa_pairs last_anki_card_index] in *.
  destruct (py_slice_from qs (wm + 1)); repeat split.
Qed.

Section MoreLedgerFileFacts.
Context {json_text : Type}.
Variable json_dump : qa_data_t -> json_text.
Variable json_load : json_text -> option qa_data_t.
Variable isoformat : nat -> str.

(** X11: loading twice is loading once: the second call of
    [load_or_create_qa_file] returns the ledger of the first and writes
    nothing, given that the JSON codec decodes what it encoded. *)
Theorem X11_load_twice (filename : string) (w : world json_text) :
  (forall d : qa_data_t, json_load (json_dump d) = Some d) ->
  let '(d1, w1) := load_or_create_qa_file json_dump json_load filename w in
  load_or_create_qa_file json_dump json_load filename w1 = (d1, w1).
Proof.
  intros Hcodec. unfold load_or_create_qa_file at 1.
  destruct (match fs w !! filename with
            | Some t => json_load t
            | None => None
            end) as [data|] eqn:Hload.
  - unfold load_or_create_qa_file. now rewrite Hload.
  - unfold load_or_create_qa_file. cbn [emit write_file fs].
    now rewrite lookup_insert_eq, Hcodec.
Qed.

(** X12: [save_qa_data] leaves under the file name the dump of the ledger
    it returns, and touches nothing else: every file other than the target
    and its temporary name, and the deck package, are as before. *)
Theorem X12_save_touches_one_file (data : qa_data_t) (filename other : string)
        (w : world json_text) :
  other <> filename ->
  other <> (filename +:+ ".tmp")%string ->
  let '(data', w') := save_qa_data json_dump isoformat data filename w in
  fs w' !! filename = Some (json_dump data')
  /\ fs w' !! other = fs w !! other
  /\ apkg w' = apkg w.
Proof.
  intros Hne Htmp.
  pose proof (save_qa_data_fs json_dump isoformat data filename w) as H.
  cbv zeta in H. rewrite H. cbn [fs apkg].
  split; [apply lookup_insert_eq|]. split; [|reflexivity].
  rewrite lookup_insert_ne by congruence.
  rewrite lookup_delete_ne by congruence.
  now rewrite lookup_insert_ne by congruence.
Qed.

End MoreLedgerFileFacts.

Lemma X11_witness :
  let '(d1, w1) :=
    load_or_create_qa_file sample_dump sample_load qa_file
                           (sample_world {[ qa_file := None ]}) in
  load_or_create_qa_file sample_dump sample_load qa_file w1 = (d1, w1).
Proof.
  apply (X11_load_twice sample_dump sample_load qa_file
           (sample_world {[ qa_file := None ]})).
  intros d. reflexivity.
Defined.

Lemma X12_witness :
  let '(data', w') :=
    save_qa_data sample_dump sample_clock resume_ledger qa_file
      (sample_world {[ "notes.txt"%string := None ]}) in
  fs w' !! qa_file = Some (sample_dump data')
  /\ fs w' !! "notes.txt"%string
     = fs (sample_world {[ "notes.txt"%string := None ]}) !! "notes.txt"%string
  /\ apkg w' = apkg (sample_world {[ "notes.txt"%string := None ]}).
Proof.
  apply (X12_save_touches_one_file sample_dump sample_clock resume_ledger
           qa_file "notes.txt"
           (sample_world {[ "notes.txt"%string := None ]})).
  - discriminate.
  - discriminate.
Defined.

(** ** Invariants of a run of [main] *)

Lemma synced_metadata (deck : deck_t) (d : qa_data_t) :
  last_processed_page (metadata (synced deck d))
  = last_processed_page (metadata d)
  /\ total_questions (metadata (synced deck d))
     = total_questions (metadata d).
Proof. rewrite synced_spec. now destruct (py_slice_from _ _). Qed.

(** With the watermark on the last record but [k], a synchronisation
    after [k] records were appended adds exactly those. *)
Lemma py_slice_from_appended (old new : list qa_record) :
  py_slice_from (old ++ new) (Z.of_nat (length old) - 1 + 1) = new.
Proof.
  rewrite py_slice_from_nonneg by lia.
  replace (Z.to_nat (Z.of_nat (length old) - 1 + 1)) with (length old) by lia.
  now rewrite drop_app_length.
Qed.

Section RunFacts.
Context {json_text : Type}.
Variable json_dump : qa_data_t -> json_text.
Variable json_load : json_text -> option qa_data_t.
Variable isoformat : nat -> str.
Variable generate_questions : nat -> str -> option str.
Variable random_deck_id : Z.

Local Abbreviation run_state := (run_state json_text).
Local Abbreviation world := (world json_text).

Lemma sync_deck_deck (st : run_state) :
  deck (snd (sync_deck st))
  = add_notes
      (List.map note_of
         (py_slice_from (qa_pairs (qa_data st))
            (last_anki_card_index (metadata (qa_data st)) + 1)))
      (deck st).
Proof.
  unfold sync_deck.
  pose proof (add_new_cards_spec (deck st) (qa_data st)) as H.
  cbv zeta in H. now rewrite H.
Qed.

(** The invariant only reads the ledger and the deck. *)
Lemma run_inv_ext (d0 : qa_data_t) (st st' : run_state) :
  qa_data st' = qa_data st -> deck st' = deck st ->
  run_inv d0 st -> run_inv d0 st'.
Proof. unfold run_inv. now intros -> ->. Qed.

Lemma run_inv_save (d0 : qa_data_t) (st : run_state) :
  run_inv d0 st -> run_inv d0 (save_progress json_dump isoformat st).
Proof. exact (fun H => H). Qed.

Lemma run_inv_first_sync (d0 : qa_data_t) (w : world) :
  run_inv d0
    (snd (sync_deck {| qa_data := d0;
                       deck := create_or_load_deck random_deck_id;
                       outside := w |})).
Proof.
  unfold run_inv. rewrite sync_deck_qa_data, sync_deck_deck.
  cbn [qa_data deck]. rewrite synced_qa_pairs.
  destruct (synced_metadata (create_or_load_deck random_deck_id) d0)
    as [-> ->].
  split; [exists []; split; [now rewrite app_nil_r | constructor]|].
  split; [lia|]. split; [auto|].
  intros Hok. unfold watermark_ok in Hok. split.
  - rewrite synced_spec.
    pose proof (py_slice_from_length (qa_pairs d0)
                  (last_anki_card_index (metadata d0) + 1)) as Hlen.
    destruct (py_slice_from _ _) as [|r new].
    + cbn [length] in Hlen. lia.
    + cbn [set_last_anki_card_index metadata last_anki_card_index].
      cbn [length] in *. lia.
  - rewrite py_slice_from_nonneg by lia. reflexivity.
Qed.

(** Appending the pairs of a part, synchronising and saving. *)
Lemma run_inv_append (d0 : qa_data_t) (st : run_state) (page_num : Z)
      (i : nat) (found : list qa_pair) :
  (last_processed_page (metadata d0) + 1 <= page_num)%Z ->
  Forall (fun p => question p <> [] /\ answer p <> []) found ->
  run_inv d0 st ->
  run_inv d0
    (snd (sync_deck
            (update_qa_data
               (fun d => set_total_questions (Z.of_nat (length (qa_pairs d))) d)
               (update_qa_data (set_last_processed_page page_num)
                  (update_qa_data
                     (extend_qa_pairs
                        (List.map (stamp page_num (Z.of_nat i + 1)) found))
                     st))))).
Proof.
  intros Hpage Hfound (Hrecs & Hlpp & Htq & Hwm).
  set (stamped := List.map (stamp page_num (Z.of_nat i + 1)) found).
  unfold run_inv. rewrite sync_deck_qa_data, sync_deck_deck.
  cbn [update_qa_data qa_data deck]. rewrite synced_qa_pairs.
  match goal with
  | |- context [synced ?dk ?d] =>
      destruct (synced_metadata dk d) as [-> ->]
  end.
  cbn [set_total_questions set_last_processed_page extend_qa_pairs metadata
       qa_pairs last_processed_page total_questions last_anki_card_index].
  destruct Hrecs as (new & Hnew & Hok).
  split.
  { exists (new ++ stamped). split; [now rewrite Hnew, app_assoc|].
    apply Forall_app. split; [exact Hok|].
    unfold stamped. apply Forall_map.
    eapply Forall_impl; [exact Hfound|].
    intros p [Hq Ha]. unfold record_ok, stamp.
    cbn [pair page_number part_number]. repeat split; auto; lia. }
  split; [lia|]. split; [reflexivity|].
  intros Hok0. destruct (Hwm Hok0) as [Hsynced Hnotes].
  assert (Hk : Z.to_nat (last_anki_card_index (metadata d0) + 1)
               <= length (qa_pairs (qa_data st))).
  { unfold watermark_ok in Hok0. rewrite Hnew, length_app. lia. }
  split.
  - rewrite synced_spec.
    cbn [set_total_questions set_last_processed_page extend_qa_pairs metadata
         qa_pairs last_anki_card_index].
    rewrite Hsynced, py_slice_from_appended.
    destruct stamped as [|r rs] eqn:Hst.
    + rewrite app_nil_r. exact Hsynced.
    + cbn [set_last_anki_card_index metadata last_anki_card_index].
      rewrite length_app. lia.
  - rewrite Hsynced, py_slice_from_appended.
    unfold add_notes. cbn [notes]. rewrite Hnotes, <- map_app.
    now rewrite drop_app_le.
Qed.

Lemma process_part_inv (d0 : qa_data_t) (page_num : Z) (i : nat)
      (part : str) (st : run_state) :
  (last_processed_page (metadata d0) + 1 <= page_num)%Z ->
  run_inv d0 st ->
  run_inv d0
    (snd (process_part json_dump isoformat generate_questions
                       page_num i part st)).
Proof.
  intros Hpage Hinv. unfold process_part, call_generate.
  destruct (generate_questions (calls (outside st)) part) as [result|];
    [|exact Hinv].
  destruct (extract_assistant_responses result) as [response|]; [|exact Hinv].
  destruct (truthy response); [|exact Hinv].
  pose proof (extract_pairs_nonempty response) as Hfound.
  destruct (extract_questions_and_answers response) as [|p ps] eqn:Hex;
    [exact Hinv|].
  match goal with
  | |- context [sync_deck ?s] =>
      assert (Hrun : run_inv d0 (snd (sync_deck s)));
      [|destruct (sync_deck s) as [n st5]; exact Hrun]
  end.
  apply (run_inv_append d0 _ page_num i (p :: ps) Hpage Hfound).
  exact Hinv.
Qed.

Lemma process_parts_inv (d0 : qa_data_t) (page_num : Z) (parts : list str)
      (i : nat) (valid : bool) (st : run_state) :
  (last_processed_page (metadata d0) + 1 <= page_num)%Z ->
  run_inv d0 st ->
  run_inv d0
    (snd (process_parts json_dump isoformat generate_questions
                        page_num i parts valid st)).
Proof.
  intros Hpage. revert i valid st.
  induction parts as [|part parts IH]; intros i valid st Hinv;
    cbn [process_parts].
  - exact Hinv.
  - pose proof (process_part_inv d0 page_num i part st Hpage Hinv) as Hpart.
    destruct (process_part _ _ _ _ _ _ _) as [v st'].
    apply IH. exact Hpart.
Qed.

Lemma run_inv_page_done (d0 : qa_data_t) (page_num : Z) (st : run_state) :
  (last_processed_page (metadata d0) + 1 <= page_num)%Z ->
  run_inv d0 st ->
  run_inv d0 (update_qa_data (set_last_processed_page page_num) st).
Proof.
  intros Hpage (Hrecs & Hlpp & Htq & Hwm). unfold run_inv.
  cbn [update_qa_data qa_data deck set_last_processed_page metadata qa_pairs
       last_processed_page total_questions last_anki_card_index].
  repeat split; try tauto; try lia; now apply Hwm.
Qed.

Lemma run_inv_page_counted (d0 : qa_data_t) (st : run_state) :
  run_inv d0 st ->
  run_inv d0
    (update_qa_data
       (fun d => set_total_pages_processed
                   (total_pages_processed (metadata d) + 1) d) st).
Proof. exact (fun H => H). Qed.

Lemma process_page_inv (d0 : qa_data_t) (page_num : Z) (page : page_t)
      (st : run_state) :
  (last_processed_page (metadata d0) + 1 <= page_num)%Z ->
  run_inv d0 st ->
  run_inv d0
    (snd (process_page json_dump isoformat generate_questions
                       page_num page st)).
Proof.
  intros Hpage Hinv. unfold process_page.
  destruct page as [text| |]; [|exact Hinv|exact Hinv].
  destruct (truthy text); cbn [negb]; [|exact Hinv].
  match goal with
  | |- context [process_parts _ _ _ ?p ?i ?ps ?v ?s] =>
      pose proof (process_parts_inv d0 p ps i v s Hpage Hinv) as Hparts;
      destruct (process_parts json_dump isoformat generate_questions
                              p i ps v s) as [valid st1]
  end.
  cbn [snd] in *.
  apply run_inv_save, run_inv_page_done; [exact Hpage|].
  destruct valid; [|exact Hparts].
  apply run_inv_save, run_inv_page_counted, Hparts.
Qed.

Lemma process_pages_inv (d0 : qa_data_t) (pages : list page_t)
      (page_num : Z) (st : run_state) :
  (last_processed_page (metadata d0) + 1 <= page_num)%Z ->
  run_inv d0 st ->
  run_inv d0
    (snd (process_pages json_dump isoformat generate_questions
                        page_num pages st)).
Proof.
  revert page_num st.
  induction pages as [|page pages IH]; intros page_num st Hpage Hinv;
    cbn [process_pages].
  - exact Hinv.
  - pose proof (process_page_inv d0 page_num page st Hpage Hinv) as Hp.
    destruct (process_page _ _ _ _ _ _) as [[|] st'].
    + apply IH; [lia | exact Hp].
    + exact Hp.
Qed.

(** [main] keeps the invariant with respect to the ledger it loaded. *)
Lemma main_inv (pdf : option (list page_t)) (w : world) :
  run_inv (fst (load_or_create_qa_file json_dump json_load qa_file w))
          (snd (main json_dump json_load isoformat generate_questions
                     random_deck_id pdf w)).
Proof.
  unfold main.
  destruct (load_or_create_qa_file json_dump json_load qa_file w)
    as [d0 w0].
  cbn [fst].
  pose proof (run_inv_first_sync d0 w0) as Hsync.
  pose proof (sync_deck_qa_data
                {| qa_data := d0; deck := create_or_load_deck random_deck_id;
                   outside := w0 |}) as Hdata.
  destruct (sync_deck _) as [n st1]. cbn [snd qa_data deck] in *.
  assert (Hstart : (last_processed_page (metadata d0) + 1
                    <= last_processed_page (metadata (qa_data st1)) + 1)%Z).
  { rewrite Hdata. destruct (synced_metadata
                               (create_or_load_deck random_deck_id) d0)
      as [-> _]. lia. }
  destruct pdf as [pages|]; [|now apply run_inv_save].
  destruct (_ >=? _)%Z; [exact Hsync|].
  match goal with
  | |- context [process_pages _ _ _ ?p ?ps ?s] =>
      pose proof (process_pages_inv d0 ps p s Hstart Hsync) as Hpages;
      destruct (process_pages json_dump isoformat generate_questions
                              p ps s) as [[|] st']
  end.
  - exact Hpages.
  - now apply run_inv_save.
Qed.

End RunFacts.

(** X13: a run of [main] only appends to the records it loaded, and every
    record it appends has a question and an answer that are not empty, a
    page number from the page the run starts at, and a part number of at
    least 1. *)
Theorem X13_records_append_only :
  forall (json_text : Type) (json_dump : qa_data_t -> json_text)
         (json_load : json_text -> option qa_data_t)
         (isoformat : nat -> str)
         (generate_questions : nat -> str -> option str)
         (random_deck_id : Z) (pdf : option (list page_t))
         (w : world json_text),
    let d0 := fst (load_or_create_qa_file json_dump json_load qa_file w) in
    let st := snd (main json_dump json_load isoformat generate_questions
                        random_deck_id pdf w) in
    exists new,
      qa_pairs (qa_data st) = qa_pairs d0 ++ new
      /\ Forall (record_ok (last_processed_page (metadata d0) + 1)) new.
Proof.
  intros. subst d0 st.
  exact (proj1 (main_inv json_dump json_load isoformat generate_questions
                         random_deck_id pdf w)).
Qed.

(** X14: when the ledger that [main] loads has its watermark in range,
    then at the end of the run, however it ends, every record has its
    card (the watermark is the index of the last record) and the deck
    holds exactly the notes of the records that had no card when the run
    started, in order: cards of earlier runs are not in it. *)
Theorem X14_deck_after_run :
  forall (json_text : Type) (json_dump : qa_data_t -> json_text)
         (json_load : json_text -> option qa_data_t)
         (isoformat : nat -> str)
         (generate_questions : nat -> str -> option str)
         (random_deck_id : Z) (pdf : option (list page_t))
         (w : world json_text),
    let d0 := fst (load_or_create_qa_file json_dump json_load qa_file w) in
    let st := snd (main json_dump json_load isoformat generate_questions
                        random_deck_id pdf w) in
    watermark_ok d0 ->
    last_anki_card_index (metadata (qa_data st))
    = (Z.of_nat (length (qa_pairs (qa_data st))) - 1)%Z
    /\ notes (deck st)
       = List.map note_of
           (drop (Z.to_nat (last_anki_card_index (metadata d0) + 1))
                 (qa_pairs (qa_data st))).
Proof.
  intros. subst d0 st.
  now apply (main_inv json_dump json_load isoformat generate_questions
                      random_deck_id pdf w).
Qed.

(** X15: a run of [main] never moves [last_processed_page] back, and it
    keeps [total_questions] equal to the number of records if it was so in
    the ledger it loaded. *)
Theorem X15_progress_counters :
  forall (json_text : Type) (json_dump : qa_data_t -> json_text)
         (json_load : json_text -> option qa_data_t)
         (isoformat : nat -> str)
         (generate_questions : nat -> str -> option str)
         (random_deck_id : Z) (pdf : option (list page_t))
         (w : world json_text),
    let d0 := fst (load_or_create_qa_file json_dump json_load qa_file w) in
    let st := snd (main json_dump json_load isoformat generate_questions
                        random_deck_id pdf w) in
    (last_processed_page (metadata d0)
     <= last_processed_page (metadata (qa_data st)))%Z
    /\ (total_questions (metadata d0) = Z.of_nat (length (qa_pairs d0)) ->
        total_questions (metadata (qa_data st))
        = Z.of_nat (length (qa_pairs (qa_data st)))).
Proof.
  intros. subst d0 st.
  destruct (main_inv json_dump json_load isoformat generate_questions
                     random_deck_id pdf w) as (_ & Hlpp & Htq & _).
  auto.
Qed.

Lemma X14_witness :
  let d0 :=
    fst (load_or_create_qa_file sample_dump sample_load qa_file
           (sample_world {[ qa_file := Some midway_ledger ]})) in
  let st :=
    snd (main sample_dump sample_load sample_clock sample_answering_model 1
              (Some sample_pages)
              (sample_world {[ qa_file := Some midway_ledger ]})) in
  last_anki_card_index (metadata (qa_data st))
  = (Z.of_nat (length (qa_pairs (qa_data st))) - 1)%Z
  /\ notes (deck st)
     = List.map note_of
         (drop (Z.to_nat (last_anki_card_index (metadata d0) + 1))
               (qa_pairs (qa_data st))).
Proof.
  apply (X14_deck_after_run _ sample_dump sample_load sample_clock
           sample_answering_model 1 (Some sample_pages)
           (sample_world {[ qa_file := Some midway_ledger ]})).
  vm_compute. split; [intros H; discriminate H | reflexivity].
Defined.

Lemma X15_witness :
  let d0 :=
    fst (load_or_create_qa_file sample_dump sample_load qa_file
           (sample_world {[ qa_file := Some midway_ledger ]})) in
  let st :=
    snd (main sample_dump sample_load sample_clock sample_answering_model 1
              (Some sample_pages)
              (sample_world {[ qa_file := Some midway_ledger ]})) in
  (last_processed_page (metadata d0)
   <= last_processed_page (metadata (qa_data st)))%Z
  /\ total_questions (metadata (qa_data st))
     = Z.of_nat (length (qa_pairs (qa_data st))).
Proof.
  destruct (X15_progress_counters _ sample_dump sample_load sample_clock
              sample_answering_model 1 (Some sample_pages)
              (sample_world {[ qa_file := Some midway_ledger ]}))
    as [Hlpp Htq].
  split; [exact Hlpp | apply Htq].
  vm_compute. reflexivity.
Defined.

(** ** What a run leaves on disk, and what it sends to the model *)

Lemma generated_app (l1 l2 : list event) :
  generated (l1 ++ l2) = generated l1 ++ generated l2.
Proof.
  induction l1 as [|e l1 IH]; [reflexivity|].
  destruct e; cbn [app generated]; now rewrite IH.
Qed.

Section DiskFacts.
Context {json_text : Type}.
Variable json_dump : qa_data_t -> json_text.
Variable json_load : json_text -> option qa_data_t.
Variable isoformat : nat -> str.
Variable generate_questions : nat -> str -> option str.
Variable random_deck_id : Z.
Hypothesis codec : forall d : qa_data_t, json_load (json_dump d) = Some d.

Local Abbreviation run_state := (run_state json_text).
Local Abbreviation world := (world json_text).

Lemma save_progress_on_disk (st : run_state) :
  ledger_on_disk json_load (save_progress json_dump isoformat st).
Proof.
  unfold ledger_on_disk, save_progress.
  pose proof (save_qa_data_fs json_dump isoformat (qa_data st) qa_file
                (outside st)) as H.
  cbv zeta in H. rewrite H. cbn [outside qa_data fs].
  eexists. split; [apply lookup_insert_eq | apply codec].
Qed.

Lemma on_disk_ext (st st' : run_state) :
  qa_data st' = qa_data st -> fs (outside st') = fs (outside st) ->
  ledger_on_disk json_load st -> ledger_on_disk json_load st'.
Proof. unfold ledger_on_disk. now intros -> ->. Qed.

Lemma process_part_on_disk (page_num : Z) (i : nat) (part : str)
      (st : run_state) :
  ledger_on_disk json_load st ->
  ledger_on_disk json_load
    (snd (process_part json_dump isoformat generate_questions
                       page_num i part st)).
Proof.
  intros H. unfold process_part, call_generate.
  destruct (generate_questions (calls (outside st)) part) as [result|];
    [|exact H].
  destruct (extract_assistant_responses result) as [response|]; [|exact H].
  destruct (truthy response); [|exact H].
  destruct (extract_questions_and_answers response) as [|p ps]; [exact H|].
  destruct (sync_deck _) as [n st5]. apply save_progress_on_disk.
Qed.

Lemma process_parts_on_disk (page_num : Z) (parts : list str) (i : nat)
      (valid : bool) (st : run_state) :
  ledger_on_disk json_load st ->
  ledger_on_disk json_load
    (snd (process_parts json_dump isoformat generate_questions
                        page_num i parts valid st)).
Proof.
  revert i valid st.
  induction parts as [|part parts IH]; intros i valid st H;
    cbn [process_parts].
  - exact H.
  - pose proof (process_part_on_disk page_num i part st H) as Hpart.
    destruct (process_part _ _ _ _ _ _ _) as [v st'].
    apply IH. exact Hpart.
Qed.





Lemma sync_deck_generated (st : run_state) :
  generated (log (outside (snd (sync_deck st))))
  = generated (log (outside st)).
Proof.
  unfold sync_deck.
  destruct (add_new_cards_to_deck (deck st) (qa_data st)) as [[n d] q].
  cbn [snd outside]. destruct (n >? 0)%Z; [|reflexivity].
  unfold save_deck, emit. cbn [log].
  rewrite generated_app. cbn [generated]. now rewrite app_nil_r.
Qed.

Lemma save_progress_generated (st : run_state) :
  generated (log (outside (save_progress json_dump isoformat st)))
  = generated (log (outside st)).
Proof.
  unfold save_progress.
  pose proof (save_qa_data_fs json_dump isoformat (qa_data st) qa_file
                (outside st)) as H.
  cbv zeta in H. rewrite H. cbn [outside log].
  rewrite generated_app. cbn [generated]. now rewrite app_nil_r.
Qed.

Lemma process_part_generated (page_num : Z) (i : nat) (part : str)
      (st : run_state) :
  generated
    (log (outside (snd (process_part json_dump isoformat generate_questions
                                     page_num i part st))))
  = generated (log (outside st)) ++ [part].
Proof.
  assert (Hcall : generated (log (outside st) ++ [EvGenerate part])
                  = generated (log (outside st)) ++ [part])
    by now rewrite generated_app.
  unfold process_part, call_generate.
  destruct (generate_questions (calls (outside st)) part) as [result|];
    [|exact Hcall].
  destruct (extract_assistant_responses result) as [response|];
    [|exact Hcall].
  destruct (truthy response); [|exact Hcall].
  destruct (extract_questions_and_answers response) as [|p ps];
    [exact Hcall|].
  match goal with
  | |- context [sync_deck ?s] =>
      pose proof (sync_deck_generated s) as Hs;
      destruct (sync_deck s) as [n st5]
  end.
  cbn [snd] in *. rewrite save_progress_generated, Hs. exact Hcall.
Qed.

Lemma process_parts_generated (page_num : Z) (parts : list str) (i : nat)
      (valid : bool) (st : run_state) :
  generated
    (log (outside (snd (process_parts json_dump isoformat generate_questions
                                      page_num i parts valid st))))
  = generated (log (outside st)) ++ parts.
Proof.
  revert i valid st.
  induction parts as [|part parts IH]; intros i valid st;
    cbn [process_parts].
  - now rewrite app_nil_r.
  - pose proof (process_part_generated page_num i part st) as Hpart.
    destruct (process_part _ _ _ _ _ _ _) as [v st'].
    cbn [snd] in Hpart. rewrite IH, Hpart. now rewrite <- app_assoc.
Qed.

(** X17: on a page with text, every part of the chunker is sent to the
    model exactly once and in order, whether the calls fail or not (there
    is no retry and no part is left out); on a page without text the
    model is not called. *)
Theorem X17_parts_sent_once (page_num : Z) (st : run_state) :
  (forall text : str,
      text <> [] ->
      generated
        (log (outside
                (snd (process_page json_dump isoformat generate_questions
                                   page_num (PageText text) st))))
      = generated (log (outside st))
        ++ break_down_page_into_parts text default_part_size)
  /\ (forall page : page_t,
         page = PageNone \/ page = PageText [] \/ page = PageRaises ->
         generated
           (log (outside
                   (snd (process_page json_dump isoformat generate_questions
                                      page_num page st))))
         = generated (log (outside st))).
Proof.
  split.
  - intros text Hne. unfold process_page.
    apply truthy_true in Hne. rewrite Hne. cbn [negb].
    match goal with
    | |- context [process_parts _ _ _ ?p ?i ?ps ?v ?s] =>
        pose proof (process_parts_generated p ps i v s) as Hparts;
        destruct (process_parts json_dump isoformat generate_questions
                                p i ps v s) as [valid st1]
    end.
    cbn [snd outside emit log] in *.
    rewrite generated_app in Hparts. cbn [generated] in Hparts.
    rewrite app_nil_r in Hparts.
    rewrite save_progress_generated. cbn [update_qa_data outside].
    destruct valid; [|exact Hparts].
    rewrite save_progress_generated. exact Hparts.
  - intros page [-> | [-> | ->]]; unfold process_page;
      cbn [truthy negb snd outside emit log];
      rewrite generated_app; cbn [generated]; now rewrite app_nil_r.
Qed.

End DiskFacts.


Lemma X17_witness :
  generated
    (log (outside
            (snd (process_page sample_dump sample_clock sample_model 3
                    (PageText (lit "Water is wet. Ice is cold."))
                    {| qa_data := midway_ledger; deck := sample_deck;
                       outside := sample_world ∅ |}))))
  = generated (log (sample_world ∅))
    ++ break_down_page_into_parts (lit "Water is wet. Ice is cold.")
                                  default_part_size.
Proof.
  apply (proj1 (X17_parts_sent_once sample_dump sample_clock sample_model 3
                  {| qa_data := midway_ledger; deck := sample_deck;
                     outside := sample_world ∅ |})
               (lit "Water is wet. Ice is cold.")).
  discriminate.
Defined.

(** ** Which pages a run reads, and when it fails *)

Lemma pages_read_app (l1 l2 : list event) :
  pages_read (l1 ++ l2) = pages_read l1 ++ pages_read l2.
Proof.
  induction l1 as [|e l1 IH]; [reflexivity|].
  destruct e; cbn [app pages_read]; now rewrite IH.
Qed.

Lemma page_range_cons (first : Z) (count : nat) :
  page_range first (S count) = first :: page_range (first + 1) count.
Proof.
  unfold page_range. cbn [seq List.map]. f_equal; [lia|].
  rewrite <- seq_shift, map_map. apply map_ext. intros k. lia.
Qed.


Section PageFacts.
Context {json_text : Type}.
Variable json_dump : qa_data_t -> json_text.
Variable json_load : json_text -> option qa_data_t.
Variable isoformat : nat -> str.
Variable generate_questions : nat -> str -> option str.
Variable random_deck_id : Z.

Local Abbreviation run_state := (run_state json_text).
Local Abbreviation world := (world json_text).

Lemma sync_deck_pages_read (st : run_state) :
  pages_read (log (outside (snd (sync_deck st))))
  = pages_read (log (outside st)).
Proof.
  unfold sync_deck.
  destruct (add_new_cards_to_deck (deck st) (qa_data st)) as [[n d] q].
  cbn [snd outside]. destruct (n >? 0)%Z; [|reflexivity].
  unfold save_deck, emit. cbn [log].
  rewrite pages_read_app. cbn [pages_read]. now rewrite app_nil_r.
Qed.

Lemma save_progress_pages_read (st : run_state) :
  pages_read (log (outside (save_progress json_dump isoformat st)))
  = pages_read (log (outside st)).
Proof.
  unfold save_progress.
  pose proof (save_qa_data_fs json_dump isoformat (qa_data st) qa_file
                (outside st)) as H.
  cbv zeta in H. rewrite H. cbn [outside log].
  rewrite pages_read_app. cbn [pages_read]. now rewrite app_nil_r.
Qed.

Lemma process_part_pages_read (page_num : Z) (i : nat) (part : str)
      (st : run_state) :
  pages_read
    (log (outside (snd (process_part json_dump isoformat generate_questions
                                     page_num i part st))))
  = pages_read (log (outside st)).
Proof.
  assert (Hcall : pages_read (log (outside st) ++ [EvGenerate part])
                  = pages_read (log (outside st))).
  { rewrite pages_read_app. cbn [pages_read]. now rewrite app_nil_r. }
  unfold process_part, call_generate.
  destruct (generate_questions (calls (outside st)) part) as [result|];
    [|exact Hcall].
  destruct (extract_assistant_responses result) as [response|];
    [|exact Hcall].
  destruct (truthy response); [|exact Hcall].
  destruct (extract_questions_and_answers response) as [|p ps];
    [exact Hcall|].
  match goal with
  | |- context [sync_deck ?s] =>
      pose proof (sync_deck_pages_read s) as Hs;
      destruct (sync_deck s) as [n st5]
  end.
  cbn [snd] in *. rewrite save_progress_pages_read, Hs. exact Hcall.
Qed.

Lemma process_parts_pages_read (page_num : Z) (parts : list str) (i : nat)
      (valid : bool) (st : run_state) :
  pages_read
    (log (outside (snd (process_parts json_dump isoformat generate_questions
                                      page_num i parts valid st))))
  = pages_read (log (outside st)).
Proof.
  revert i valid st.
  induction parts as [|part parts IH]; intros i valid st;
    cbn [process_parts].
  - reflexivity.
  - pose proof (process_part_pages_read page_num i part st) as Hpart.
    destruct (process_part _ _ _ _ _ _ _) as [v st'].
    cbn [snd] in Hpart. now rewrite IH, Hpart.
Qed.

(** A page is read once, and only a page that cannot be read raises. *)
Lemma process_page_pages_read (page_num : Z) (page : page_t)
      (st : run_state) :
  pages_read
    (log (outside (snd (process_page json_dump isoformat generate_questions
                                     page_num page st))))
  = pages_read (log (outside st)) ++ [page_num]
  /\ (fst (process_page json_dump isoformat generate_questions
                        page_num page st) = Raised
      <-> page = PageRaises).
Proof.
  assert (Hread : pages_read (log (outside st) ++ [EvExtractText page_num])
                  = pages_read (log (outside st)) ++ [page_num])
    by now rewrite pages_read_app.
  unfold process_page.
  destruct page as [text| |]; cbn [fst snd outside emit log];
    [|split; [exact Hread | split; discriminate]
     |split; [exact Hread | split; reflexivity]].
  destruct (truthy text); cbn [negb fst snd outside emit log];
    [|split; [exact Hread | split; discriminate]].
  match goal with
  | |- context [process_parts _ _ _ ?p ?i ?ps ?v ?s] =>
      pose proof (process_parts_pages_read p ps i v s) as Hparts;
      destruct (process_parts json_dump isoformat generate_questions
                              p i ps v s) as [valid st1]
  end.
  cbn [fst snd outside emit log] in *.
  split; [|split; discriminate].
  rewrite save_progress_pages_read. cbn [update_qa_data outside].
  destruct valid; [rewrite save_progress_pages_read|];
    cbn [update_qa_data outside]; now rewrite Hparts.
Qed.

Lemma process_pages_pages_read (pages : list page_t) (page_num : Z)
      (st : run_state) :
  exists count,
    count <= length pages
    /\ pages_read
         (log (outside
                 (snd (process_pages json_dump isoformat generate_questions
                                     page_num pages st))))
       = pages_read (log (outside st)) ++ page_range page_num count
    /\ (fst (process_pages json_dump isoformat generate_questions
                           page_num pages st) = Returned ->
        count = length pages)
    /\ (Forall readable pages ->
        fst (process_pages json_dump isoformat generate_questions
                           page_num pages st) = Returned).
Proof.
  revert page_num st.
  induction pages as [|page pages IH]; intros page_num st;
    cbn [process_pages].
  - exists 0. cbn [length fst snd page_range seq List.map].
    rewrite app_nil_r. auto.
  - destruct (process_page_pages_read page_num page st) as [Hread Hraise].
    destruct (process_page _ _ _ _ _ _) as [[|] st'];
      cbn [fst snd] in Hread, Hraise.
    + destruct (IH (page_num + 1)%Z st') as (count & Hle & Hlog & Hret & Hok).
      exists (S count). cbn [length]. split; [lia|]. split; [|split].
      * rewrite Hlog, Hread, page_range_cons. now rewrite <- app_assoc.
      * intros Hr. now rewrite (Hret Hr).
      * intros Hall. inversion Hall; subst. auto.
    + exists 1. cbn [length fst snd]. split; [lia|]. split; [|split].
      * rewrite Hread. unfold page_range. cbn [seq List.map].
        do 2 f_equal. lia.
      * discriminate.
      * intros Hall. inversion Hall as [|? ? Hpage _]; subst.
        exfalso. apply Hpage. now apply Hraise.
Qed.

(** X18: a run of [main] reads the pages that follow
    [last_processed_page], one after the other without a gap and each one
    once, and no other page; when it returns normally from the page loop
    it has read all of them. *)
Theorem X18_pages_read_in_order (pdf : option (list page_t)) (w : world) :
  let d0 := fst (load_or_create_qa_file json_dump json_load qa_file w) in
  let start_page := (last_processed_page (metadata d0) + 1)%Z in
  let run := main json_dump json_load isoformat generate_questions
                  random_deck_id pdf w in
  exists count,
    pages_read (log (outside (snd run)))
    = pages_read (log w) ++ page_range start_page count
    /\ (forall pages,
           pdf = Some pages ->
           count <= length (py_slice_from pages start_page)
           /\ (fst run = Returned ->
               (start_page < Z.of_nat (length pages))%Z ->
               count = length (py_slice_from pages start_page))).
Proof.
  cbv zeta. unfold main.
  assert (Hload :
    pages_read
      (log (snd (load_or_create_qa_file json_dump json_load qa_file w)))
    = pages_read (log w)).
  { unfold load_or_create_qa_file.
    destruct (match fs w !! qa_file with
              | Some t => json_load t
              | None => None
              end); [reflexivity|].
    cbn [snd emit write_file log]. rewrite pages_read_app.
    cbn [pages_read]. now rewrite app_nil_r. }
  destruct (load_or_create_qa_file json_dump json_load qa_file w)
    as [d0 w0].
  cbn [fst snd] in *.
  pose proof (sync_deck_pages_read
                {| qa_data := d0; deck := create_or_load_deck random_deck_id;
                   outside := w0 |}) as Hsync.
  pose proof (sync_deck_qa_data
                {| qa_data := d0; deck := create_or_load_deck random_deck_id;
                   outside := w0 |}) as Hdata.
  destruct (sync_deck _) as [n st1]. cbn [snd qa_data deck outside] in *.
  assert (Hstart : last_processed_page (metadata (qa_data st1))
                   = last_processed_page (metadata d0)).
  { rewrite Hdata. apply synced_metadata. }
  rewrite Hstart.
  destruct pdf as [pages|].
  - destruct (last_processed_page (metadata d0) + 1
              >=? Z.of_nat (length pages))%Z eqn:Hge.
    + exists 0. cbn [snd fst]. unfold page_range. cbn [seq List.map].
      rewrite app_nil_r, Hsync, Hload. split; [reflexivity|].
      intros pages' Hp. inversion Hp; subst. split; [lia|].
      intros _ Hlt. apply Z.geb_le in Hge. lia.
    + destruct (process_pages_pages_read
                  (py_slice_from pages
                     (last_processed_page (metadata d0) + 1))
                  (last_processed_page (metadata d0) + 1)%Z st1)
        as (count & Hle & Hlog & Hret & _).
      exists count.
      destruct (process_pages _ _ _ _ _ _) as [[|] st'];
        cbn [fst snd] in *.
      * rewrite Hlog, Hsync, Hload. split; [reflexivity|].
        intros pages' Hp. inversion Hp; subst. auto.
      * rewrite save_progress_pages_read, Hlog, Hsync, Hload.
        split; [reflexivity|].
        intros pages' Hp. inversion Hp; subst. split; [exact Hle|].
        discriminate.
  - exists 0. cbn [snd fst]. unfold page_range. cbn [seq List.map].
    rewrite app_nil_r, save_progress_pages_read, Hsync, Hload.
    split; [reflexivity|]. discriminate.
Qed.


End PageFacts.

Lemma X18_witness :
  exists count,
    pages_read
      (log (outside
              (snd (main sample_dump sample_load sample_clock
                         sample_answering_model 1 (Some sample_pages)
                         (sample_world {[ qa_file := Some midway_ledger ]})))))
    = pages_read (log (sample_world {[ qa_file := Some midway_ledger ]}))
      ++ page_range 1 count
    /\ count = 2.
Proof.
  destruct (X18_pages_read_in_order sample_dump sample_load sample_clock
              sample_answering_model 1 (Some sample_pages)
              (sample_world {[ qa_file := Some midway_ledger ]}))
    as (count & Hlog & Hcount).
  exists count. split; [exact Hlog|].
  destruct (Hcount sample_pages eq_refl) as [_ Hall].
  apply Hall; vm_compute; reflexivity.
Defined.

